(** * relay.mesos: the Demand Cell, the Supervisor and the readiness protocol

  A shallow embedding of [relay_mesos/main.py].  The shared counter [MV]
  (a [multiprocessing.Value('l')], i.e. a signed 64-bit C integer) is a [Z]
  with the wrap-around of a C store written out; the processes are modelled
  by the events they emit and by the way they end. *)

From Stdlib Require Import ZArith List Lia Bool String.
Import ListNotations.
Open Scope Z_scope.

(** ** The Demand Cell: [MV = mp.Value('l')] *)

Module DemandCell.

Definition int64_min : Z := - 2 ^ 63.
Definition int64_max : Z := 2 ^ 63 - 1.

(** The values a [ctypes.c_int64] can hold. *)
Definition in_int64 (n : Z) : Prop := int64_min <= n <= int64_max.

(** [MV.value = n]: ctypes stores a Python integer without any overflow
    check, keeping its low 64 bits as a two's complement number. *)
Definition wrap64 (n : Z) : Z := (n + 2 ^ 63) mod 2 ^ 64 - 2 ^ 63.

(** The critical section of [_warmer_cooler_wrapper] (lines 25-28):
    [if abs(MV.value) < abs(n): MV.value = n].  [abs] is Python's, on
    unbounded integers. *)
Definition merge (MV n : Z) : Z :=
  if Z.abs MV <? Z.abs n then wrap64 n else MV.

(** Modelled from the spec: [take()] is the consumer side of the cell, in
    the Scheduler Engine ([relay_mesos/scheduler.py], not part of the
    sources at hand): "atomically reads the current value and resets it to
    0 in the same critical section; returns the pre-reset value".  The
    result is (returned value, new stored value). *)
Definition take (MV : Z) : Z * Z := (MV, 0).

(** A run of [merge] calls, oldest first. *)
Definition merge_all (MV : Z) (ns : list Z) : Z := fold_left merge ns MV.

(** The greatest magnitude of a sequence of requests (0 when empty). *)
Definition max_abs (ns : list Z) : Z :=
  fold_right (fun n m => Z.max (Z.abs n) m) 0 ns.

(** The tie-break written out: [best] stays unless a later request is
    strictly larger in magnitude, so of the largest requests the earliest
    one is the result. *)
Fixpoint first_largest (best : Z) (ns : list Z) : Z :=
  match ns with
  | [] => best
  | n :: ns' => first_largest (if Z.abs best <? Z.abs n then n else best) ns'
  end.

End DemandCell.

(** ** Facts about the Demand Cell *)

Module DemandCellFacts.
Import DemandCell.

Lemma wrap64_id (n : Z) : in_int64 n -> wrap64 n = n.
Proof.
  unfold in_int64, int64_min, int64_max, wrap64; intros Hn.
  rewrite Z.mod_small; lia.
Qed.

Lemma wrap64_range (n : Z) : in_int64 (wrap64 n).
Proof.
  unfold in_int64, int64_min, int64_max, wrap64.
  pose proof (Z.mod_pos_bound (n + 2 ^ 63) (2 ^ 64) ltac:(lia)); lia.
Qed.

Lemma merge_grows (c n : Z) : Z.abs c < Z.abs n -> merge c n = wrap64 n.
Proof. unfold merge; intros H. apply Z.ltb_lt in H. now rewrite H. Qed.

Lemma merge_keeps (c n : Z) : Z.abs n <= Z.abs c -> merge c n = c.
Proof.
  unfold merge; intros H.
  destruct (Z.ltb_spec (Z.abs c) (Z.abs n)); [lia | reflexivity].
Qed.

(** The cell only ever holds 64-bit values. *)
Lemma merge_in_int64 (c n : Z) : in_int64 c -> in_int64 (merge c n).
Proof.
  unfold merge; intros Hc.
  destruct (Z.abs c <? Z.abs n); [apply wrap64_range | exact Hc].
Qed.

Lemma merge_abs (c n : Z) :
  in_int64 n -> Z.abs (merge c n) = Z.max (Z.abs c) (Z.abs n).
Proof.
  intros Hn. unfold merge.
  destruct (Z.ltb_spec (Z.abs c) (Z.abs n)).
  - rewrite wrap64_id by exact Hn. lia.
  - lia.
Qed.

Lemma merge_all_abs (ns : list Z) :
  Forall in_int64 ns ->
  forall c, Z.abs (merge_all c ns) = Z.max (Z.abs c) (max_abs ns).
Proof.
  unfold merge_all.
  induction 1 as [| n ns Hn _ IH]; intros c; simpl.
  - lia.
  - rewrite IH, merge_abs by exact Hn. lia.
Qed.

Lemma merge_all_picks (ns : list Z) :
  Forall in_int64 ns ->
  forall c, merge_all c ns = c \/ In (merge_all c ns) ns.
Proof.
  unfold merge_all.
  induction 1 as [| n ns Hn _ IH]; intros c; simpl.
  - now left.
  - destruct (IH (merge c n)) as [E | E].
    + rewrite E. unfold merge.
      destruct (Z.abs c <? Z.abs n).
      * right; left. symmetry. now apply wrap64_id.
      * now left.
    + right; now right.
Qed.

Lemma max_abs_zero (ns : list Z) :
  max_abs ns = 0 -> forall n, In n ns -> n = 0.
Proof.
  induction ns as [| m ns IH]; simpl; intros E n Hin.
  - contradiction.
  - pose proof (Z.abs_nonneg m).
    assert (0 <= max_abs ns).
    { clear. induction ns; simpl; [lia | ].
      pose proof (Z.abs_nonneg a); lia. }
    destruct Hin as [-> | Hin].
    + lia.
    + apply IH; [lia | exact Hin].
Qed.

(** Tie-break of the code: with the strict comparison the earliest request
    of the greatest magnitude is the one that stays. *)
Lemma merge_all_first_largest (ns : list Z) :
  Forall in_int64 ns ->
  forall c, merge_all c ns = first_largest c ns.
Proof.
  unfold merge_all.
  induction 1 as [| n ns Hn _ IH]; intros c; simpl.
  - reflexivity.
  - rewrite IH. unfold merge. now rewrite wrap64_id by exact Hn.
Qed.

(** Outside the 64-bit range the store wraps: a request of [2^64] tasks
    passes the test of line 27 and leaves 0 in the cell. *)
Example merge_wraps_out_of_range : merge 1 (2 ^ 64) = 0.
Proof. reflexivity. Qed.

(** C1, as the claim states it, fails: with 3 stored, [merge(-3)] has a
    magnitude that is [>=] the stored one, and the claim has -3 stored; the
    code keeps 3. *)
Lemma C1_merge_tie_counterexample :
  merge 3 (-3) = 3 /\
  ~ (Z.abs (-3) >= Z.abs 3 -> merge 3 (-3) = -3).
Proof.
  split; [reflexivity |].
  intros H. specialize (H ltac:(lia)). vm_compute in H. discriminate.
Qed.

(** C1, amended: for every request [n] that fits the 64-bit cell and every
    stored value [c], [merge] stores [n] if and only if [|n| > |c|]
    (strictly); otherwise, ties included, the stored value is unchanged. *)
Theorem C1_merge_replaces_iff_strictly_larger (c n : Z) :
  in_int64 n ->
  (Z.abs n > Z.abs c -> merge c n = n) /\
  (Z.abs n <= Z.abs c -> merge c n = c) /\
  (merge c n <> c <-> Z.abs n > Z.abs c).
Proof.
  intros Hn. split; [| split].
  - intros H. rewrite merge_grows by lia. now apply wrap64_id.
  - apply merge_keeps.
  - split.
    + intros Hne.
      destruct (Z_le_gt_dec (Z.abs n) (Z.abs c)) as [Hle | Hgt];
        [| exact Hgt].
      exfalso. apply Hne. now apply merge_keeps.
    + intros Hgt E. rewrite merge_grows, wrap64_id in E by (assumption || lia).
      subst. lia.
Qed.

Lemma C1_merge_replaces_witness :
  DemandCell.in_int64 5 /\
  ((Z.abs 5 > Z.abs (-3) -> merge (-3) 5 = 5) /\
   (Z.abs 5 <= Z.abs (-3) -> merge (-3) 5 = -3) /\
   (merge (-3) 5 <> -3 <-> Z.abs 5 > Z.abs (-3))).
Proof.
  assert (H : in_int64 5) by (unfold in_int64, int64_min, int64_max; lia).
  split; [exact H | exact (C1_merge_replaces_iff_strictly_larger (-3) 5 H)].
Defined.

(** C2, as the claim states it, fails outside the range of the cell: after
    the single request [2^64] the next [take] returns 0, which is no request
    of the sequence and has not the greatest magnitude. *)
Lemma C2_out_of_range_counterexample :
  fst (take (merge_all (snd (take 0)) [2 ^ 64])) = 0 /\
  ~ (In (fst (take (merge_all (snd (take 0)) [2 ^ 64]))) [2 ^ 64] /\
     Z.abs (fst (take (merge_all (snd (take 0)) [2 ^ 64])))
     = max_abs [2 ^ 64]).
Proof.
  split; [reflexivity |].
  intros [Hin _]. vm_compute in Hin. destruct Hin as [H | []]. discriminate.
Qed.

(** C2, amended: starting from the 0 a [take] leaves behind, after any
    non-empty sequence of [merge] calls whose requests fit the signed 64-bit
    cell the next [take] returns one of the requests, and its magnitude is
    the greatest of the sequence. *)
Theorem C2_merge_law (before : Z) (ns : list Z) :
  Forall in_int64 ns ->
  ns <> [] ->
  let taken := fst (take (merge_all (snd (take before)) ns)) in
  In taken ns /\ Z.abs taken = max_abs ns.
Proof.
  intros Hns Hne. simpl.
  pose proof (merge_all_abs ns Hns 0) as Habs.
  rewrite Z.abs_0 in Habs.
  assert (Hmax : Z.abs (merge_all 0 ns) = max_abs ns).
  { rewrite Habs. apply Z.max_r.
    clear. induction ns; simpl; [lia |].
    pose proof (Z.abs_nonneg a); lia. }
  split; [| exact Hmax].
  destruct (merge_all_picks ns Hns 0) as [E | Hin]; [| exact Hin].
  rewrite E in *.
  destruct ns as [| n ns']; [congruence |].
  left. apply (max_abs_zero (n :: ns')); [now rewrite <- Hmax | now left].
Qed.

Lemma C2_merge_law_witness :
  let ns := [2; -7; 7; 3] in
  Forall in_int64 ns /\ ns <> [] /\
  In (fst (take (merge_all (snd (take 9)) ns))) ns /\
  Z.abs (fst (take (merge_all (snd (take 9)) ns))) = max_abs ns.
Proof.
  assert (Hr : Forall in_int64 [2; -7; 7; 3]).
  { repeat constructor; unfold int64_min, int64_max; simpl; lia. }
  assert (Hne : [2; -7; 7; 3] <> []) by discriminate.
  split; [exact Hr | split; [exact Hne |]].
  exact (C2_merge_law 9 [2; -7; 7; 3] Hr Hne).
Defined.

(** C10, as the claim states it, fails outside the range of the cell: with
    5 stored, [merge(2^64)] passes the test of line 27 and stores 0, so the
    magnitude of the stored value goes down. *)
Lemma C10_out_of_range_counterexample :
  merge 5 (2 ^ 64) = 0 /\
  ~ (Z.abs 5 <= Z.abs (merge 5 (2 ^ 64))).
Proof.
  split; [reflexivity |].
  intros H. vm_compute in H. apply H. reflexivity.
Qed.

(** C10, amended: a [merge] whose request fits the signed 64-bit cell never
    lowers the magnitude of the stored value, and [merge(0)] leaves every
    stored value, 0 included, as it is. *)
Theorem C10_merge_magnitude_monotone (c n : Z) :
  in_int64 n ->
  Z.abs c <= Z.abs (merge c n) /\ merge c 0 = c /\ merge 0 0 = 0.
Proof.
  intros Hn. split; [| split].
  - rewrite merge_abs by exact Hn. lia.
  - apply merge_keeps. simpl. apply Z.abs_nonneg.
  - reflexivity.
Qed.

Lemma C10_merge_magnitude_witness :
  in_int64 (-4) /\
  (Z.abs 9 <= Z.abs (merge 9 (-4)) /\ merge 9 0 = 9 /\ merge 0 0 = 0).
Proof.
  assert (H : in_int64 (-4)) by (unfold in_int64, int64_min, int64_max; lia).
  split; [exact H | exact (C10_merge_magnitude_monotone 9 (-4) H)].
Defined.

End DemandCellFacts.

(** ** The failure budget of the Scheduler Engine *)

Module FailureBudget.

(** The states a task record goes through. *)
Inductive TaskState : Set :=
| Staging | Starting | Running | Finished | Failed | Lost | Killed.

Record FailureBudget : Set := mkBudget { score : Z; threshold : Z }.

(** Modelled from the spec: the status-update handler lives in
    [relay_mesos/scheduler.py], which is not part of the sources at hand
    (only its [--max_failures] option is, in [build_arg_parser]).  The spec:
    "Adjust FailureBudget: Failed/Lost -> score += 1; Running/Finished ->
    score = max(0, score - 1)".  The spec names no other adjustment, so the
    remaining states leave the score as it is. *)
Definition adjust (st : TaskState) (s : Z) : Z :=
  match st with
  | Failed | Lost => s + 1
  | Running | Finished => Z.max 0 (s - 1)
  | Staging | Starting | Killed => s
  end.

Definition status_update (st : TaskState) (b : FailureBudget) : FailureBudget :=
  {| score := adjust st (score b); threshold := threshold b |}.

(** Modelled from the spec: the breaker check of the same absent handler,
    "after every status update, if threshold >= 0 and score > threshold:
    push a fault".  [--max_failures] defaults to -1, the disabled breaker. *)
Definition tripped (b : FailureBudget) : bool :=
  (0 <=? threshold b) && (threshold b <? score b).

(** A status update followed by its breaker check. *)
Definition on_status (st : TaskState) (b : FailureBudget)
  : FailureBudget * bool :=
  let b' := status_update st b in (b', tripped b').

(** The budget after a sequence of status updates, oldest first. *)
Definition after (sts : list TaskState) (b : FailureBudget) : FailureBudget :=
  fold_left (fun acc st => status_update st acc) sts b.

(** The breaker checks made along a sequence of status updates. *)
Fixpoint checks (sts : list TaskState) (b : FailureBudget) : list bool :=
  match sts with
  | [] => []
  | st :: sts' =>
      let r := on_status st b in snd r :: checks sts' (fst r)
  end.

End FailureBudget.

Module FailureBudgetFacts.
Import FailureBudget.

Lemma threshold_after (sts : list TaskState) :
  forall b, threshold (after sts b) = threshold b.
Proof.
  unfold after. induction sts as [| st sts IH]; intros b; simpl.
  - reflexivity.
  - now rewrite IH.
Qed.

Lemma tripped_iff (b : FailureBudget) :
  tripped b = true <-> threshold b >= 0 /\ score b > threshold b.
Proof.
  unfold tripped. rewrite andb_true_iff, Z.leb_le, Z.ltb_lt. lia.
Qed.


Lemma score_after_failures (k : nat) :
  forall b, score (after (repeat Failed k) b) = score b + Z.of_nat k.
Proof.
  unfold after. induction k as [| k IH]; intros b.
  - simpl. lia.
  - cbn [repeat fold_left]. rewrite IH. simpl. lia.
Qed.

(** Breaker monotonicity: with a threshold [T >= 0], after a run of [k]
    failures the breaker is tripped exactly when the score has passed
    [T]. *)
Lemma failures_trip_when_score_exceeds (k : nat) (b : FailureBudget) :
  0 <= threshold b ->
  (tripped (after (repeat Failed k) b) = true
   <-> score b + Z.of_nat k > threshold b).
Proof.
  intros HT. rewrite tripped_iff, threshold_after, score_after_failures. lia.
Qed.

(** The end-to-end example of the spec: threshold 3, four failures in a
    row, and the breaker trips on the fourth. *)
Example four_failures_threshold_three :
  checks [Failed; Failed; Failed; Failed] (mkBudget 0 3)
  = [false; false; false; true].
Proof. reflexivity. Qed.


End FailureBudgetFacts.

(** ** Processes: what they emit and how they end *)

Module Process.

(** [mesos = mp.Process(...)] and [relay = mp.Process(...)] in [main]. *)
Inductive Child : Set := Mesos | Relay.

Inductive Signal : Set := SIGTERM | SIGINT.

(** [log.debug], [log.info], [log.error], [log.exception]. *)
Inductive Level : Set := DEBUG | INFO | ERROR | EXCEPTION.

(** The effects of the code that can be observed from outside, in the
    order they happen.  A log record is kept by level and message (its
    [extra] dictionary is dropped). *)
Inductive Event : Set :=
| Log (lvl : Level) (msg : string)
| PrintUsage                        (* build_arg_parser().print_usage() *)
| Start (c : Child)                 (* c.start() *)
| Handler (s : Signal)              (* signal.signal(s, kill_children) *)
| Recv                              (* exception_receiver.recv() *)
| Terminate (c : Child) (ok : bool) (* c.terminate(); ok: it returned *)
| Exec (cmd : string)               (* a warmer or cooler command is run *)
| AtexitRegister                    (* atexit.register(driver.stop) *)
| DriverRun                         (* driver.run() *)
| DriverStop                        (* driver.stop() *)
| Send (exc : string).              (* exception_sender.send(exc) *)

(** How a function of the program ends: [sys.exit(status)], an exception
    nobody catches, a normal return, or not at all within the observations
    given (a loop that is still running, a call that still blocks). *)
Inductive Outcome : Set :=
| Exited (status : Z)
| Raised (exc : string)
| Returned
| Looping.

Definition Run : Set := list Event * Outcome.

(** Events that happen before the rest of a run. *)
Definition emit (evs : list Event) (r : Run) : Run :=
  (evs ++ fst r, snd r).

Definition is_start (c : Child) (e : Event) : bool :=
  match e, c with
  | Start Mesos, Mesos | Start Relay, Relay => true
  | _, _ => false
  end.

(** How many times child [c] was started in a trace. *)
Definition starts (c : Child) (tr : list Event) : nat :=
  List.length (filter (is_start c) tr).

Definition is_exec (e : Event) : bool :=
  match e with Exec _ => true | _ => false end.

End Process.

(** ** The Control-Loop side: the callbacks handed to Relay *)

Module Callbacks.
Import DemandCell Process.
Local Open Scope string_scope.
Local Open Scope list_scope.

(** A [warmer] or [cooler] entry of the argument namespace: absent, the
    command line's bash command, or the closure [main] puts in its place. *)
Inductive Slot : Set :=
| Unset
| Command (cmd : string)
| Wrapper.

(** The parts of the argparse namespace [ns] that [main.py] reads. *)
Record Namespace : Set := mkNamespace {
  mesos_master : option string;
  warmer : Slot;
  cooler : Slot;
  max_failures : Z
}.

(** What the Control-Loop Process holds: the shared cell and its own copy
    of the namespace. *)
Record RelayState : Set := mkRelayState {
  MV : Z;
  ns_relay : Namespace
}.

(** [_warmer_cooler_wrapper(n)], the closure over [MV] (lines 19-29): two
    debug records around the critical section. *)
Definition _warmer_cooler_wrapper (n : Z) (st : RelayState)
  : RelayState * list Event :=
  ({| MV := merge (MV st) n; ns_relay := ns_relay st |},
   [Log DEBUG "asking mesos to spawn tasks";
    Log DEBUG "...finished asking mesos to spawn tasks"]).

(** Python's truth value of a namespace entry, as in [if ns.warmer:]. *)
Definition truthy (s : Slot) : bool :=
  match s with
  | Unset => false
  | Command cmd => negb (String.eqb cmd EmptyString)
  | Wrapper => true
  end.

(** Lines 66-70: [ns_relay] is a copy of [ns] whose warmer and cooler, when
    given, are replaced by the wrapper. *)
Definition override (ns : Namespace) : Namespace :=
  {| mesos_master := mesos_master ns;
     warmer := if truthy (warmer ns) then Wrapper else warmer ns;
     cooler := if truthy (cooler ns) then Wrapper else cooler ns;
     max_failures := max_failures ns |}.

(** The function this repository puts behind a slot, if any. *)
Definition callback (s : Slot)
  : option (Z -> RelayState -> RelayState * list Event) :=
  match s with
  | Wrapper => Some _warmer_cooler_wrapper
  | Unset | Command _ => None
  end.

End Callbacks.

Module CallbackFacts.
Import DemandCell Process Callbacks.
Local Open Scope string_scope.
Local Open Scope list_scope.

Lemma override_truthy_warmer (ns : Namespace) :
  truthy (warmer ns) = true -> warmer (override ns) = Wrapper.
Proof. intros H. simpl. now rewrite H. Qed.

Lemma override_truthy_cooler (ns : Namespace) :
  truthy (cooler ns) = true -> cooler (override ns) = Wrapper.
Proof. intros H. simpl. now rewrite H. Qed.

(** C7: for every integer [n], a call of a warmer or cooler callback with
    [n] stores [merge(n)] in the Demand Cell and leaves the rest of the
    state as it was; it runs no command: all it emits is two debug log
    records.  The callbacks are the ones [main] installs for the warmer
    and cooler commands given on the command line. *)
Theorem C7_callback_only_merges (n : Z) (st : RelayState) :
  let r := _warmer_cooler_wrapper n st in
  MV (fst r) = merge (MV st) n /\
  ns_relay (fst r) = ns_relay st /\
  existsb is_exec (snd r) = false /\
  (forall e, In e (snd r) -> exists msg, e = Log DEBUG msg) /\
  (forall ns cmd,
      (warmer ns = Command cmd /\ cmd <> EmptyString ->
       callback (warmer (override ns)) = Some _warmer_cooler_wrapper) /\
      (cooler ns = Command cmd /\ cmd <> EmptyString ->
       callback (cooler (override ns)) = Some _warmer_cooler_wrapper)).
Proof.
  cbv zeta. split; [reflexivity |]. split; [reflexivity |].
  split; [reflexivity |]. split.
  - intros e [<- | [<- | []]]; eexists; reflexivity.
  - intros ns cmd; split; intros [E Hne];
      apply String.eqb_neq in Hne; simpl; rewrite E; simpl; now rewrite Hne.
Qed.

End CallbackFacts.

(** ** The Scheduler Engine process: [init_mesos_scheduler] *)

Module SchedulerProcess.
Import Process.
Local Open Scope string_scope.
Local Open Scope list_scope.

(** [mesos_pb2.Status], what [driver.run()] returns. *)
Inductive DriverStatus : Set :=
| DRIVER_NOT_STARTED | DRIVER_RUNNING | DRIVER_ABORTED | DRIVER_STOPPED.

Definition is_stopped (s : DriverStatus) : bool :=
  match s with DRIVER_STOPPED => true | _ => false end.

(** What the process finds when it runs: whether [mesos.interface] and
    [mesos.native] can be imported, and what [driver.run()] returns, if it
    returns at all ([None]: the driver is still running). *)
Record Host : Set := mkHost {
  interface_installed : bool;
  native_installed : bool;
  driver_run : option DriverStatus
}.

(** [init_mesos_scheduler] (lines 134-165).  The two imports of
    [mesos.interface] are not guarded; the import of [mesos.native] logs
    and raises again. *)
Definition init_mesos_scheduler (h : Host) : Run :=
  if negb (interface_installed h) then ([], Raised "ImportError")
  else if negb (native_installed h) then
    ([Log ERROR
        "Oops! Mesos native bindings are not installed.  You can download these binaries from mesosphere."],
     Raised "ImportError")
  else
    emit [Log INFO "starting mesos scheduler"; AtexitRegister; DriverRun]
      match driver_run h with
      | None => ([], Looping)
      | Some res =>
          let status := if is_stopped res then 0 else 1 in
          ([DriverStop], Exited status)
      end.

(** Modelled from the spec: [catch], from [relay_mesos/util.py], is not
    part of the sources at hand.  The spec: "Any unhandled fault ... is
    pushed to the Fault Channel and the process terminates".  A
    [sys.exit] is not a fault and passes through. *)
Definition catch (body : Run) : Run :=
  match snd body with
  | Raised exc => (fst body ++ [Send exc], Returned)
  | _ => body
  end.

End SchedulerProcess.

(** ** The Supervisor: [main] *)

Module Supervisor.
Import Process Callbacks.
Local Open Scope string_scope.
Local Open Scope list_scope.

(** One turn of the monitor loop, as the Supervisor sees the world:
    [exception_receiver.poll()], [relay.is_alive()] at line 113 and
    [mesos.is_alive()] at line 116.  (The [is_alive] calls of lines 107-111
    only fill the [extra] of a log record.) *)
Record Obs : Set := mkObs {
  poll : bool;
  relay_alive : bool;
  mesos_alive : bool
}.

(** What happens to the Supervisor once its handlers are installed: a turn
    of the loop, or a signal delivered before the next turn.  A run is
    followed up to the turn or the signal that ends the loop; a signal that
    arrives later, while lines 121-123 run, is not part of the model. *)
Inductive Input : Set :=
| Tick (o : Obs)
| Sig (s : Signal).

Section Main.

(** The argument namespace. *)
Variable ns : Namespace.

(** Whether [c.terminate()] raises. *)
Variable terminate_raises : Child -> bool.

(** [try: c.terminate(); log.info(done) except: log.exception(failed)] *)
Definition try_terminate (c : Child) (done failed : string) : list Event :=
  if terminate_raises c
  then [Terminate c false; Log EXCEPTION failed]
  else [Terminate c true; Log INFO done].

(** [kill_children(signal, frame)] (lines 86-101). *)
Definition kill_children (s : Signal) : Run :=
  ([Log ERROR
      "Received a signal that is trying to terminate this process. Terminating mesos and relay child processes!"]
     ++ try_terminate Mesos "terminated mesos scheduler"
                      "could not terminate mesos scheduler"
     ++ try_terminate Relay "terminated relay"
                      "could not terminate relay",
   Exited 1).

(** Lines 121-123, after the loop: no [try] around the two calls. *)
Definition shutdown : Run :=
  if terminate_raises Relay then
    ([Terminate Relay false], Raised "relay.terminate")
  else if terminate_raises Mesos then
    ([Terminate Relay true; Terminate Mesos false],
     Raised "mesos.terminate")
  else
    ([Terminate Relay true; Terminate Mesos true], Exited 1).

(** The [while True] loop (lines 104-120) over the turns it gets to
    make. *)
Fixpoint monitor (inputs : list Input) : Run :=
  match inputs with
  | [] => ([], Looping)
  | Sig s :: _ => kill_children s
  | Tick o :: rest =>
      if poll o then
        emit [Recv;
              Log ERROR
                "Terminating child processes because one of them raised an exception"]
          shutdown
      else if negb (relay_alive o) then
        emit [Log ERROR "Relay died.  Check logs to see why."] shutdown
      else if negb (mesos_alive o) then
        emit [Log ERROR
                "Mesos Scheduler died and didn't notify me of its exception.  This may be a code bug.  Check logs."]
          shutdown
      else monitor rest
  end.

(** [main(ns)] (lines 33-123). *)
Definition main (inputs : list Input) : Run :=
  match mesos_master ns with
  | None =>
      ([Log ERROR "Oops!  You didn't define --mesos_master"; PrintUsage],
       Exited 1)
  | Some _ =>
      emit [Log INFO "Starting Relay Mesos!";
            Start Mesos; Start Relay;
            Handler SIGTERM; Handler SIGINT]
        (monitor inputs)
  end.

End Main.

(** A turn of the loop on which nothing is wrong. *)
Definition is_quiet (i : Input) : bool :=
  match i with
  | Tick o => negb (poll o) && relay_alive o && mesos_alive o
  | Sig _ => false
  end.

(** A turn on which a fault has arrived or a child is dead. *)
Definition is_trigger (o : Obs) : bool :=
  poll o || negb (relay_alive o) || negb (mesos_alive o).

Definition never_raises : Child -> bool := fun _ => false.

End Supervisor.

Module SupervisorFacts.
Import Process Callbacks SchedulerProcess Supervisor.
Local Open Scope string_scope.
Local Open Scope list_scope.

Ltac case_raises raises :=
  destruct (raises Relay) eqn:?, (raises Mesos) eqn:?.

Lemma starts_app (c : Child) (tr1 tr2 : list Event) :
  starts c (tr1 ++ tr2) = (starts c tr1 + starts c tr2)%nat.
Proof. unfold starts. now rewrite filter_app, length_app. Qed.

Lemma kill_children_no_start raises (s : Signal) (c : Child) :
  starts c (fst (kill_children raises s)) = 0%nat.
Proof.
  unfold kill_children, try_terminate; case_raises raises; now destruct c.
Qed.

Lemma shutdown_no_start raises (c : Child) :
  starts c (fst (shutdown raises)) = 0%nat.
Proof. unfold shutdown; case_raises raises; now destruct c. Qed.

(** The loop starts nothing: a child that is gone stays gone. *)
Lemma monitor_no_start raises (c : Child) (inputs : list Input) :
  starts c (fst (monitor raises inputs)) = 0%nat.
Proof.
  induction inputs as [| [o | s] rest IH]; cbn [monitor].
  - reflexivity.
  - destruct (poll o); [| destruct (relay_alive o);
                           [destruct (mesos_alive o) |]]; cbn [negb];
      try exact IH;
      unfold emit; cbn [fst]; rewrite starts_app, shutdown_no_start;
      now destruct c.
  - apply kill_children_no_start.
Qed.

Lemma main_starts_at_most_once ns raises (inputs : list Input) (c : Child) :
  (starts c (fst (main ns raises inputs)) <= 1)%nat.
Proof.
  unfold main. destruct (mesos_master ns).
  - unfold emit; cbn [fst]. rewrite starts_app, monitor_no_start.
    destruct c; vm_compute; lia.
  - destruct c; vm_compute; lia.
Qed.

(** Quiet turns leave the loop where it was. *)
Lemma monitor_quiet raises (pre rest : list Input) :
  forallb is_quiet pre = true ->
  monitor raises (pre ++ rest) = monitor raises rest.
Proof.
  induction pre as [| i pre IH]; intros Hq; [reflexivity |].
  cbn [forallb] in Hq. apply andb_true_iff in Hq as [Hi Hpre].
  destruct i as [o | s]; [| discriminate].
  cbn [is_quiet] in Hi.
  apply andb_true_iff in Hi as [Hi Hm].
  apply andb_true_iff in Hi as [Hp Hr].
  apply negb_true_iff in Hp.
  cbn [app monitor]. rewrite Hp, Hr, Hm. cbn [negb]. now apply IH.
Qed.

(** A fault or a dead child ends the loop at once. *)
Lemma monitor_trigger raises (o : Obs) (post : list Input) :
  is_trigger o = true ->
  exists evs, monitor raises (Tick o :: post) = emit evs (shutdown raises).
Proof.
  unfold is_trigger; intros Ht. cbn [monitor].
  destruct (poll o); [eexists; reflexivity |].
  destruct (relay_alive o); cbn [negb]; [| eexists; reflexivity].
  destruct (mesos_alive o); cbn [negb]; [discriminate | eexists; reflexivity].
Qed.

Lemma shutdown_ok raises :
  (forall c, raises c = false) ->
  shutdown raises = ([Terminate Relay true; Terminate Mesos true], Exited 1).
Proof. intros H. unfold shutdown. now rewrite !H. Qed.

(** Where lines 121-122 differ from [kill_children]: nothing catches a
    failing [relay.terminate()], and [mesos.terminate()] is not reached. *)
Lemma shutdown_unguarded raises :
  raises Relay = true ->
  shutdown raises = ([Terminate Relay false], Raised "relay.terminate").
Proof. intros H. unfold shutdown. now rewrite H. Qed.

(** The Supervisor itself never exits with status 0: the clean exit of the
    Scheduler Engine process reaches it as a dead child. *)
Lemma main_never_exits_0 ns raises (inputs : list Input) :
  snd (main ns raises inputs) <> Exited 0.
Proof.
  unfold main. destruct (mesos_master ns) as [m |]; [| discriminate].
  unfold emit; cbn [snd].
  induction inputs as [| [o | s] rest IH]; cbn [monitor]; try discriminate.
  destruct (poll o); [| destruct (relay_alive o);
                         [destruct (mesos_alive o) |]]; cbn [negb];
    try exact IH;
    unfold emit, shutdown; case_raises raises; discriminate.
Qed.

End SupervisorFacts.

(** ** Exit codes, fail-fast shutdown and signal handling *)

Module SupervisorClaims.
Import Process Callbacks SchedulerProcess Supervisor SupervisorFacts.
Local Open Scope string_scope.
Local Open Scope list_scope.

(** A namespace with a master, a turn without trouble and a turn on which
    a fault has arrived, for the examples below. *)
Definition ns_example : Namespace :=
  mkNamespace (Some "zk://localhost:2181/mesos")
              (Command "./warm.sh") (Command "./cool.sh") (-1).
Definition quiet_turn : Input := Tick (mkObs false true true).
Definition fault_turn : Obs := mkObs true true true.

(** When both [terminate] calls return, the first turn that finds a fault
    on the Fault Channel or a dead child has the Supervisor terminate both
    children and exit with status 1; each child was started once, and no run
    ever starts a child a second time. *)
Lemma fail_fast_when_terminate_returns
  (ns : Namespace) (m : string) (raises : Child -> bool)
  (pre post : list Input) (o : Obs) :
  mesos_master ns = Some m ->
  (forall c, raises c = false) ->
  forallb is_quiet pre = true ->
  is_trigger o = true ->
  let r := main ns raises (pre ++ Tick o :: post) in
  snd r = Exited 1 /\
  (exists evs, fst r = evs ++ [Terminate Relay true; Terminate Mesos true]) /\
  starts Relay (fst r) = 1%nat /\
  starts Mesos (fst r) = 1%nat /\
  (forall inputs c, (starts c (fst (main ns raises inputs)) <= 1)%nat).
Proof.
  intros Hm Hr Hq Ht. cbv zeta.
  assert (E : exists evs,
             main ns raises (pre ++ Tick o :: post)
             = (([Log INFO "Starting Relay Mesos!"; Start Mesos; Start Relay;
                  Handler SIGTERM; Handler SIGINT] ++ evs)
                  ++ [Terminate Relay true; Terminate Mesos true],
                Exited 1)).
  { unfold main. rewrite Hm, monitor_quiet by exact Hq.
    destruct (monitor_trigger raises o post Ht) as [evs ->].
    rewrite shutdown_ok by exact Hr. exists evs.
    unfold emit; cbn [fst snd]. now rewrite <- app_assoc. }
  split; [| split; [| split; [| split]]].
  - destruct E as [evs ->]. reflexivity.
  - destruct E as [evs ->]. eexists. reflexivity.
  - pose proof (main_starts_at_most_once ns raises
                  (pre ++ Tick o :: post) Relay) as Hle.
    unfold main in *. rewrite Hm in *. unfold emit in *; cbn [fst] in *.
    rewrite starts_app, monitor_no_start in *. reflexivity.
  - unfold main. rewrite Hm. unfold emit; cbn [fst].
    rewrite starts_app, monitor_no_start. reflexivity.
  - intros inputs c. apply main_starts_at_most_once.
Qed.

(** C5, at the failing input: the first turn finds a fault on the Fault
    Channel and [relay.terminate()] raises.  Nothing at lines 121-123
    catches the exception: the run ends with it, [mesos.terminate()] and
    [sys.exit(1)] are not reached, and the scheduler child is left running.
    The handler [kill_children] guards the same two calls. *)
Lemma C5_unguarded_terminate_failing_run :
  let raises := fun c => match c with Relay => true | Mesos => false end in
  main ns_example raises [Tick fault_turn]
  = ([Log INFO "Starting Relay Mesos!"; Start Mesos; Start Relay;
      Handler SIGTERM; Handler SIGINT; Recv;
      Log ERROR
        "Terminating child processes because one of them raised an exception";
      Terminate Relay false],
     Raised "relay.terminate")
  /\ snd (main ns_example raises [Tick fault_turn]) <> Exited 1
  /\ ~ In (Terminate Mesos true) (fst (main ns_example raises [Tick fault_turn]))
  /\ ~ In (Terminate Mesos false)
          (fst (main ns_example raises [Tick fault_turn]))
  /\ In (Terminate Mesos true) (fst (kill_children raises SIGTERM)).
Proof.
  cbv zeta. split; [reflexivity |]. split; [discriminate |].
  split; [| split].
  - simpl. intros H. repeat (destruct H as [H | H]; [discriminate |]).
    exact H.
  - simpl. intros H. repeat (destruct H as [H | H]; [discriminate |]).
    exact H.
  - simpl. tauto.
Qed.

(** C8: without a [--mesos_master], [main] logs the error, prints the
    usage and exits with status 1, and that is all it does: neither child
    process is started. *)
Theorem C8_missing_master
  (ns : Namespace) (raises : Child -> bool) (inputs : list Input) :
  mesos_master ns = None ->
  main ns raises inputs
  = ([Log ERROR "Oops!  You didn't define --mesos_master"; PrintUsage],
     Exited 1) /\
  starts Mesos (fst (main ns raises inputs)) = 0%nat /\
  starts Relay (fst (main ns raises inputs)) = 0%nat.
Proof. intros Hm. unfold main. rewrite Hm. repeat split. Qed.

Lemma C8_missing_master_witness :
  let ns := mkNamespace None (Command "./warm.sh") Unset 3 in
  mesos_master ns = None /\
  main ns never_raises [quiet_turn]
  = ([Log ERROR "Oops!  You didn't define --mesos_master"; PrintUsage],
     Exited 1).
Proof.
  split; [reflexivity |].
  exact (proj1 (C8_missing_master
                  (mkNamespace None (Command "./warm.sh") Unset 3)
                  never_raises [quiet_turn] eq_refl)).
Defined.

(** C9: a SIGTERM or SIGINT that reaches the Supervisor runs
    [kill_children]: it calls [terminate] on the scheduler and on relay and
    exits with status 1.  A [terminate] that raises is logged with
    [log.exception]; the other child is still terminated and the exit
    still happens. *)
Theorem C9_signal_kills_children
  (ns : Namespace) (m : string) (raises : Child -> bool)
  (pre post : list Input) (s : Signal) :
  mesos_master ns = Some m ->
  forallb is_quiet pre = true ->
  let r := kill_children raises s in
  In (Handler SIGTERM) (fst (main ns raises pre)) /\
  In (Handler SIGINT) (fst (main ns raises pre)) /\
  main ns raises (pre ++ Sig s :: post)
    = emit (fst (main ns raises pre)) r /\
  snd r = Exited 1 /\
  (exists evs1 evs2 evs3,
      fst r = evs1 ++ Terminate Mesos (negb (raises Mesos)) :: evs2
                   ++ Terminate Relay (negb (raises Relay)) :: evs3) /\
  (raises Mesos = true ->
   In (Log EXCEPTION "could not terminate mesos scheduler") (fst r)) /\
  (raises Relay = true ->
   In (Log EXCEPTION "could not terminate relay") (fst r)).
Proof.
  intros Hm Hq. cbv zeta.
  assert (Hpre : monitor raises pre = ([], Looping)).
  { rewrite <- (app_nil_r pre). now rewrite monitor_quiet. }
  unfold main. rewrite Hm, Hpre, monitor_quiet by exact Hq.
  unfold emit; cbn [fst snd app monitor].
  split; [simpl; tauto |]. split; [simpl; tauto |].
  split; [reflexivity |]. split; [reflexivity |].
  unfold kill_children, try_terminate; cbn [fst].
  split; [| split].
  - destruct (raises Mesos), (raises Relay); cbn [negb];
      eexists [_], [_], [_]; reflexivity.
  - intros ->. simpl. tauto.
  - intros ->. destruct (raises Mesos); simpl; tauto.
Qed.

Lemma C9_signal_kills_children_witness :
  let raises := fun c => match c with Mesos => true | Relay => false end in
  snd (kill_children raises SIGINT) = Exited 1 /\
  In (Log EXCEPTION "could not terminate mesos scheduler")
     (fst (kill_children raises SIGINT)) /\
  In (Terminate Relay true) (fst (kill_children raises SIGINT)).
Proof.
  pose (raises := fun c => match c with Mesos => true | Relay => false end).
  destruct (C9_signal_kills_children ns_example "zk://localhost:2181/mesos"
              raises [quiet_turn] [] SIGINT eq_refl eq_refl)
    as (_ & _ & _ & Hexit & _ & Hlog & _).
  split; [exact Hexit |]. split; [exact (Hlog eq_refl) |].
  simpl. tauto.
Defined.

End SupervisorClaims.

(** ** The Readiness Gate: [init_relay] and [mesos_ready] *)

Module ReadinessGate.
Import DemandCell.

(** Who holds the lock of the condition [mesos_ready = mp.Condition()]. *)
Inductive Owner : Set := Nobody | ByRelay | ByScheduler.

(** Where the Control-Loop Process is in [init_relay] (lines 126-131). *)
Inductive Pc : Set :=
| AtAcquire   (* before [mesos_ready.acquire()] returns *)
| AtWait      (* lock held, before [mesos_ready.wait()] *)
| Asleep      (* inside [wait()]: lock given up, not notified yet *)
| Woken       (* inside [wait()]: notified, the lock not taken back yet *)
| InLoop.     (* [relay_main(ns_relay)] is running *)

Record State : Set := mkState {
  pc : Pc;
  lock : Owner;
  MV : Z
}.

(** [MV = mp.Value('l')] starts at 0, the lock is free, [init_relay] has
    just been entered. *)
Definition init : State := mkState AtAcquire Nobody 0.

(** The steps of the two processes.  The Control-Loop Process makes the
    first four; [Callback n] is [relay_main] calling a warmer or cooler
    callback, the only place where it writes the cell.  The last four are
    the Scheduler Engine's. *)
Inductive Action : Set :=
| RelayAcquire
| RelayWait
| RelayWake
| Callback (n : Z)
| SchedAcquire
| SchedNotify
| SchedRelease
| SchedTake.

Definition is_relay_action (a : Action) : bool :=
  match a with
  | RelayAcquire | RelayWait | RelayWake | Callback _ => true
  | _ => false
  end.

(** One step, [None] when the action cannot happen in the state (the
    process is elsewhere, or it blocks).  The condition is Python's:
    [acquire] blocks while the lock is taken; [wait()], called without a
    timeout, gives the lock up and returns only after a [notify] has found
    the caller asleep and the lock has been taken back; a [notify] that
    finds nobody asleep is lost.

    Modelled from the spec: the Scheduler Engine
    ([relay_mesos/scheduler.py]) is not part of the sources at hand; it
    "releases the Readiness Gate" on registration ([SchedNotify], under the
    lock) and consumes the cell with [take()] ([SchedTake]).  It is free to
    make its steps at any time and in any number. *)
Definition step (s : State) (a : Action) : option State :=
  match a, pc s, lock s with
  | RelayAcquire, AtAcquire, Nobody => Some (mkState AtWait ByRelay (MV s))
  | RelayWait, AtWait, ByRelay => Some (mkState Asleep Nobody (MV s))
  | RelayWake, Woken, Nobody => Some (mkState InLoop ByRelay (MV s))
  | Callback n, InLoop, l => Some (mkState InLoop l (merge (MV s) n))
  | SchedAcquire, p, Nobody => Some (mkState p ByScheduler (MV s))
  | SchedNotify, Asleep, ByScheduler => Some (mkState Woken ByScheduler (MV s))
  | SchedNotify, p, ByScheduler => Some (mkState p ByScheduler (MV s))
  | SchedRelease, p, ByScheduler => Some (mkState p Nobody (MV s))
  | SchedTake, p, l => Some (mkState p l (snd (take (MV s))))
  | _, _, _ => None
  end.

(** A run of the system: the actions in the order they happen. *)
Fixpoint exec (s : State) (acts : list Action) : option State :=
  match acts with
  | [] => Some s
  | a :: rest =>
      match step s a with
      | Some s' => exec s' rest
      | None => None
      end
  end.

(** The values the Scheduler Engine reads from the cell along a run. *)
Fixpoint taken (s : State) (acts : list Action) : list Z :=
  match acts with
  | [] => []
  | a :: rest =>
      match step s a with
      | Some s' =>
          match a with
          | SchedTake => fst (take (MV s)) :: taken s' rest
          | _ => taken s' rest
          end
      | None => []
      end
  end.

End ReadinessGate.

Module ReadinessGateFacts.
Import DemandCell ReadinessGate.

(** While the Control-Loop Process sleeps in [wait()], it makes no step:
    there is no timeout to wake it. *)
Lemma asleep_blocks (s : State) (a : Action) :
  pc s = Asleep -> is_relay_action a = true -> step s a = None.
Proof.
  destruct s as [p l v]; simpl; intros ->.
  destruct a, l; simpl; intros H; try reflexivity; discriminate.
Qed.

Lemma asleep_until_notified (s s' : State) (a : Action) :
  pc s = Asleep -> step s a = Some s' -> a <> SchedNotify ->
  pc s' = Asleep.
Proof.
  destruct s as [p l v]; simpl; intros -> Hs Hne.
  destruct a, l; simpl in Hs; try discriminate; try congruence;
    inversion Hs; subst; reflexivity.
Qed.

(** From inside [wait()], a callback is only reached through a notify. *)
Lemma callback_after_notify (pre : list Action) :
  forall s n post s',
    pc s = Asleep ->
    exec s (pre ++ Callback n :: post) = Some s' ->
    exists p2 p3, pre = p2 ++ SchedNotify :: p3.
Proof.
  induction pre as [| a pre IH]; intros s n post s' Hpc Hex.
  - cbn [app exec] in Hex.
    rewrite asleep_blocks in Hex by (assumption || reflexivity).
    discriminate.
  - cbn [app exec] in Hex.
    destruct (step s a) as [s1 |] eqn:Hs; [| discriminate].
    assert (Hd : a = SchedNotify \/ a <> SchedNotify)
      by (destruct a; (now left) || (right; discriminate)).
    destruct Hd as [-> | Hne].
    + exists [], pre. reflexivity.
    + pose proof (asleep_until_notified s s1 a Hpc Hs Hne) as Hpc1.
      destruct (IH s1 n post s' Hpc1 Hex) as (p2 & p3 & ->).
      exists (a :: p2), p3. reflexivity.
Qed.

(** Before [wait()] has been entered, a callback is only reached through
    the wait and a later notify. *)
Lemma callback_after_wait_and_notify (pre : list Action) :
  forall s n post s',
    pc s = AtAcquire \/ pc s = AtWait ->
    exec s (pre ++ Callback n :: post) = Some s' ->
    exists p1 p2 p3, pre = p1 ++ RelayWait :: p2 ++ SchedNotify :: p3.
Proof.
  induction pre as [| a pre IH]; intros s n post s' Hpc Hex.
  - simpl in Hex. destruct s as [p l v]; simpl in *.
    destruct Hpc as [-> | ->]; destruct l; discriminate.
  - cbn [app exec] in Hex.
    destruct (step s a) as [s1 |] eqn:Hs; [| discriminate].
    assert (Hd : (a = RelayWait /\ pc s1 = Asleep)
                 \/ (a <> RelayWait /\ (pc s1 = AtAcquire \/ pc s1 = AtWait))).
    { destruct s as [p l v]; simpl in *.
      destruct Hpc as [-> | ->]; destruct a, l; simpl in Hs;
        try discriminate; inversion Hs; subst; simpl;
        ((left; split; [reflexivity | reflexivity])
         || (right; split; [discriminate | tauto])). }
    destruct Hd as [[-> Hpc1] | [Hne Hpc1]].
    + destruct (callback_after_notify pre s1 n post s' Hpc1 Hex)
        as (p2 & p3 & ->).
      exists [], p2, p3. reflexivity.
    + destruct (IH s1 n post s' Hpc1 Hex) as (p1 & p2 & p3 & ->).
      exists (a :: p1), p2, p3. reflexivity.
Qed.

Lemma unnotified_step (s s' : State) (a : Action) :
  pc s <> Woken -> pc s <> InLoop -> MV s = 0 ->
  step s a = Some s' -> a <> SchedNotify ->
  pc s' <> Woken /\ pc s' <> InLoop /\ MV s' = 0.
Proof.
  destruct s as [p l v]; simpl; intros Hw Hl -> Hs Hne.
  destruct a, p, l; simpl in Hs; try discriminate; try congruence;
    inversion Hs; subst; simpl; repeat split; discriminate.
Qed.

(** Without a notify the cell keeps its initial 0: whatever the Scheduler
    Engine takes from it before the release is 0. *)
Lemma nothing_to_take_before_release (acts : list Action) :
  forall s,
    pc s <> Woken -> pc s <> InLoop -> MV s = 0 ->
    ~ In SchedNotify acts ->
    Forall (fun v => v = 0) (taken s acts).
Proof.
  induction acts as [| a acts IH]; intros s Hw Hl Hv Hno; simpl.
  - constructor.
  - destruct (step s a) as [s1 |] eqn:Hs; [| constructor].
    assert (Hne : a <> SchedNotify) by (intros ->; apply Hno; now left).
    destruct (unnotified_step s s1 a Hw Hl Hv Hs Hne) as (Hw1 & Hl1 & Hv1).
    assert (Hrest : Forall (fun v => v = 0) (taken s1 acts)).
    { apply IH; try assumption. intros Hin. apply Hno. now right. }
    destruct a; try exact Hrest.
    constructor; [exact Hv | exact Hrest].
Qed.

(** A release that comes before the Control-Loop Process sleeps is lost:
    the process then waits on, and no callback runs. *)
Example early_release_is_lost :
  exec init [SchedAcquire; SchedNotify; SchedRelease;
             RelayAcquire; RelayWait]
  = Some (mkState Asleep Nobody 0)
  /\ step (mkState Asleep Nobody 0) RelayWake = None
  /\ step (mkState Asleep Nobody 0) (Callback 1) = None.
Proof. repeat split. Qed.

(** C6: [init_relay] waits on the Readiness Gate before it starts the
    feedback loop, and the wait has no timeout: in every run in which a
    callback is called, the wait and, after it, the release of the gate
    have happened before the call; asleep in the wait the process makes no
    step of its own; and as long as the gate is not released, the cell
    holds its initial 0 for the Scheduler Engine to read. *)
Theorem C6_no_merge_before_release
  (pre post : list Action) (n : Z) (s' : State) :
  exec init (pre ++ Callback n :: post) = Some s' ->
  (exists p1 p2 p3, pre = p1 ++ RelayWait :: p2 ++ SchedNotify :: p3) /\
  In SchedNotify pre /\
  (forall s a, pc s = Asleep -> is_relay_action a = true -> step s a = None)
  /\
  (forall acts, ~ In SchedNotify acts ->
                Forall (fun v => v = 0) (taken init acts)).
Proof.
  intros Hex.
  assert (Hord : exists p1 p2 p3,
             pre = p1 ++ RelayWait :: p2 ++ SchedNotify :: p3).
  { apply (callback_after_wait_and_notify pre init n post s');
      [now left | exact Hex]. }
  split; [exact Hord |]. split; [| split].
  - destruct Hord as (p1 & p2 & p3 & ->).
    apply in_or_app; right; right. apply in_or_app; right; now left.
  - exact asleep_blocks.
  - intros acts Hno.
    apply nothing_to_take_before_release; simpl; congruence.
Qed.

Lemma C6_no_merge_before_release_witness :
  exec init ([RelayAcquire; RelayWait; SchedAcquire; SchedNotify;
              SchedRelease; RelayWake] ++ Callback 5 :: [SchedTake])
  = Some (mkState InLoop ByRelay 0) /\
  In SchedNotify [RelayAcquire; RelayWait; SchedAcquire; SchedNotify;
                  SchedRelease; RelayWake].
Proof.
  split; [reflexivity |].
  exact (proj1 (proj2 (C6_no_merge_before_release
           [RelayAcquire; RelayWait; SchedAcquire; SchedNotify;
            SchedRelease; RelayWake] [SchedTake] 5
           (mkState InLoop ByRelay 0) eq_refl))).
Defined.

End ReadinessGateFacts.


(** ** The defaults of [build_arg_parser]: [--task_resources] *)

From Stdlib Require Import Ascii Permutation.

Module ArgDefaults.
Local Open Scope string_scope.
Local Open Scope list_scope.

(** Python's [s.split(sep)] for a one-character separator: every occurrence
    of [sep] cuts, empty pieces are kept, and the empty string gives one
    empty piece. *)
Fixpoint split (sep : Ascii.ascii) (s : string) : list string :=
  match s with
  | EmptyString => [EmptyString]
  | String c rest =>
      if Ascii.eqb c sep then EmptyString :: split sep rest
      else match split sep rest with
           | [] => [String c EmptyString]
           | piece :: pieces => String c piece :: pieces
           end
  end.

(** Python's [sep.join(pieces)]. *)
Fixpoint join (sep : Ascii.ascii) (pieces : list string) : string :=
  match pieces with
  | [] => EmptyString
  | [p] => p
  | p :: rest => p ++ String sep (join sep rest)
  end.

(** How often [c] occurs in [s]. *)
Fixpoint count_char (c : Ascii.ascii) (s : string) : nat :=
  match s with
  | EmptyString => 0
  | String c' rest =>
      if Ascii.eqb c' c then S (count_char c rest) else count_char c rest
  end.

(** A value, or the [ValueError] of [dict(...)]: "dictionary update sequence
    element #index has length len; 2 is required". *)
Inductive PyResult (A : Type) : Type :=
| Ok (a : A)
| ValueError (index len : nat).
Arguments Ok {A} a.
Arguments ValueError {A} index len.

(** A [dict] with string keys and values: each key once. *)
Definition Dict : Set := list (string * string).

(** [d[k] = v] *)
Fixpoint dict_set (k v : string) (d : Dict) : Dict :=
  match d with
  | [] => [(k, v)]
  | (k', v') :: d' =>
      if String.eqb k k' then (k, v) :: d' else (k', v') :: dict_set k v d'
  end.

(** [d.get(k)] *)
Fixpoint dict_get (k : string) (d : Dict) : option string :=
  match d with
  | [] => None
  | (k', v') :: d' => if String.eqb k k' then Some v' else dict_get k d'
  end.

(** [dict(items)], continued from element [i] with [d] built so far: each
    element must have two members, key and value; a later key replaces an
    earlier one. *)
Fixpoint dict_update (i : nat) (items : list (list string)) (d : Dict)
  : PyResult Dict :=
  match items with
  | [] => Ok d
  | [k; v] :: rest => dict_update (S i) rest (dict_set k v d)
  | item :: _ => ValueError i (List.length item)
  end.

(** [os.getenv(name, default)], given what the environment holds. *)
Definition getenv (var : option string) (default : string) : string :=
  match var with
  | Some s => s
  | None => default
  end.

(** Lines 186-187, the default of [--task_resources], evaluated when the
    module is loaded:
    [dict(x.split('=') for x in os.getenv('RELAY_TASK_RESOURCES', '').split(' '))].
    [var] is the value of [RELAY_TASK_RESOURCES]. *)
Definition task_resources_default (var : option string) : PyResult Dict :=
  dict_update 0
    (map (split "="%char) (split " "%char (getenv var EmptyString))) [].

(** Line 185, [type=lambda x: x.split('=')]: what one word given on the
    command line becomes. *)
Definition task_resources_type (x : string) : list string :=
  split "="%char x.

(** The value of the last [k=v] among the items, if there is one. *)
Fixpoint find_last (k : string) (items : list (list string)) : option string :=
  match items with
  | [] => None
  | item :: rest =>
      match find_last k rest with
      | Some v => Some v
      | None =>
          match item with
          | [k'; v] => if String.eqb k k' then Some v else None
          | _ => None
          end
      end
  end.

End ArgDefaults.

Module ArgDefaultsFacts.
Import ArgDefaults.
Local Open Scope string_scope.
Local Open Scope list_scope.

Lemma split_not_nil (sep : Ascii.ascii) (s : string) : split sep s <> [].
Proof.
  destruct s as [| c rest]; simpl; [discriminate |].
  destruct (Ascii.eqb c sep); [discriminate |].
  destruct (split sep rest); discriminate.
Qed.

(** Round trip: joining the pieces with the separator gives the string
    back. *)
Lemma split_join (sep : Ascii.ascii) (s : string) :
  join sep (split sep s) = s.
Proof.
  induction s as [| c rest IH]; [reflexivity |].
  cbn [split]. destruct (Ascii.eqb_spec c sep) as [-> | Hne].
  - pose proof (split_not_nil sep rest) as Hnil.
    cbn [join]. destruct (split sep rest) as [| p ps]; [congruence |].
    now rewrite IH.
  - pose proof (split_not_nil sep rest) as Hnil.
    destruct (split sep rest) as [| p ps]; [congruence |].
    destruct ps as [| q qs]; cbn [join] in *.
    + now rewrite IH.
    + cbn [append]. now rewrite IH.
Qed.

Lemma split_length (sep : Ascii.ascii) (s : string) :
  List.length (split sep s) = S (count_char sep s).
Proof.
  induction s as [| c rest IH]; [reflexivity |].
  cbn [split count_char]. destruct (Ascii.eqb c sep).
  - simpl. now rewrite IH.
  - pose proof (split_not_nil sep rest) as Hnil.
    destruct (split sep rest) as [| p ps]; [congruence |]. exact IH.
Qed.

Lemma split_pieces_clean (sep : Ascii.ascii) (s : string) :
  Forall (fun p => count_char sep p = 0%nat) (split sep s).
Proof.
  induction s as [| c rest IH]; cbn [split].
  - repeat constructor.
  - destruct (Ascii.eqb c sep) eqn:E.
    + constructor; [reflexivity | exact IH].
    + destruct (split sep rest) as [| p ps].
      * repeat constructor. simpl. now rewrite E.
      * inversion IH; subst. constructor; [| assumption].
        simpl. now rewrite E.
Qed.

Lemma dict_get_set (k k' v : string) (d : Dict) :
  dict_get k (dict_set k' v d)
  = if String.eqb k k' then Some v else dict_get k d.
Proof.
  induction d as [| [k0 v0] d IH]; simpl.
  - reflexivity.
  - destruct (String.eqb_spec k' k0) as [-> | Hne]; simpl.
    + destruct (String.eqb k k0); reflexivity.
    + rewrite IH. destruct (String.eqb_spec k k0) as [-> | Hne'].
      * destruct (String.eqb_spec k0 k'); [congruence | reflexivity].
      * reflexivity.
Qed.

(** The items [dict] accepts: exactly two members each. *)
Definition pair_like (item : list string) : bool :=
  Nat.eqb (List.length item) 2.

Lemma dict_update_ok (items : list (list string)) :
  forall i d,
    (exists d', dict_update i items d = Ok d')
    <-> forallb pair_like items = true.
Proof.
  induction items as [| item rest IH]; intros i d; cbn [dict_update forallb].
  - split; [reflexivity | intros _; now exists d].
  - destruct item as [| k [| v [| w more]]]; cbn [pair_like List.length Nat.eqb];
      try (split; [intros [d' H]; discriminate | discriminate]).
    rewrite andb_true_l. apply IH.
Qed.

Lemma dict_update_get (items : list (list string)) :
  forall i d d' k,
    dict_update i items d = Ok d' ->
    dict_get k d' = match find_last k items with
                    | Some v => Some v
                    | None => dict_get k d
                    end.
Proof.
  induction items as [| item rest IH]; intros i d d' k H;
    cbn [dict_update find_last] in *.
  - now inversion H.
  - destruct item as [| k0 [| v0 [| w more]]]; try discriminate.
    rewrite (IH _ _ _ k H).
    destruct (find_last k rest); [reflexivity |].
    rewrite dict_get_set. now destruct (String.eqb k k0).
Qed.

Lemma find_last_in (k v : string) (items : list (list string)) :
  find_last k items = Some v -> In [k; v] items.
Proof.
  induction items as [| item rest IH]; cbn [find_last]; [discriminate |].
  destruct (find_last k rest) as [v' |].
  - intros H. right. apply IH. exact H.
  - destruct item as [| k0 [| v0 [| w more]]]; try discriminate.
    destruct (String.eqb_spec k k0) as [-> | Hne]; [| discriminate].
    intros H; inversion H; subst. now left.
Qed.

Lemma find_last_none (k : string) (items : list (list string)) :
  (forall v, ~ In [k; v] items) -> find_last k items = None.
Proof.
  induction items as [| item rest IH]; intros Hno; cbn [find_last].
  - reflexivity.
  - rewrite IH by (intros v Hin; apply (Hno v); now right).
    destruct item as [| k0 [| v0 [| w more]]]; try reflexivity.
    destruct (String.eqb_spec k k0) as [-> | Hne]; [| reflexivity].
    exfalso. apply (Hno v0). now left.
Qed.

Lemma find_last_app (k : string) (pre post : list (list string)) :
  find_last k (pre ++ post)
  = match find_last k post with
    | Some v => Some v
    | None => find_last k pre
    end.
Proof.
  induction pre as [| item pre IH]; cbn [app find_last].
  - now destruct (find_last k post).
  - rewrite IH. now destruct (find_last k post).
Qed.

(** The default of [--task_resources] can be built exactly when every
    space-separated word of [RELAY_TASK_RESOURCES] holds one [=]; any other
    value makes [dict] raise, while the module is being loaded. *)
Theorem task_resources_default_ok_iff (var : option string) :
  (exists d, task_resources_default var = Ok d)
  <-> Forall (fun word => count_char "="%char word = 1%nat)
             (split " "%char (getenv var EmptyString)).
Proof.
  unfold task_resources_default. rewrite dict_update_ok.
  rewrite forallb_forall, Forall_forall. split.
  - intros H word Hin.
    specialize (H (split "="%char word) (in_map _ _ _ Hin)).
    unfold pair_like in H. apply Nat.eqb_eq in H.
    rewrite split_length in H. congruence.
  - intros H item Hin. apply in_map_iff in Hin as (word & <- & Hin).
    unfold pair_like. apply Nat.eqb_eq.
    rewrite split_length, (H word Hin). reflexivity.
Qed.

(** With [RELAY_TASK_RESOURCES] unset, empty, or starting with a space, the
    first word is empty and [dict] raises "element #0 has length 1": the
    module cannot be loaded. *)
Theorem task_resources_default_unset_raises (var : option string) :
  var = None \/ var = Some EmptyString
  \/ (exists rest, var = Some (String " "%char rest)) ->
  task_resources_default var = ValueError 0 1.
Proof.
  intros [-> | [-> | [rest ->]]]; reflexivity.
Qed.

Lemma task_resources_default_unset_witness :
  task_resources_default None = ValueError 0 1.
Proof.
  exact (task_resources_default_unset_raises None (or_introl eq_refl)).
Defined.

(** When the default is built, it holds what the words say: a value found
    under a key comes from a word [key=value], and of several words for one
    key the last one counts. *)
Theorem task_resources_default_lookup
  (var : option string) (d : Dict) (k v : string) :
  task_resources_default var = Ok d ->
  let items :=
    map (split "="%char) (split " "%char (getenv var EmptyString)) in
  (dict_get k d = Some v -> In [k; v] items) /\
  (forall pre post,
      items = pre ++ [k; v] :: post ->
      (forall v', ~ In [k; v'] post) ->
      dict_get k d = Some v).
Proof.
  intros Hok. cbv zeta. unfold task_resources_default in Hok.
  pose proof (dict_update_get _ _ _ _ k Hok) as Hget. cbn [dict_get] in Hget.
  assert (E : dict_get k d
              = find_last k (map (split "="%char)
                               (split " "%char (getenv var EmptyString)))).
  { rewrite Hget. now destruct (find_last k _). }
  split.
  - rewrite E. apply find_last_in.
  - intros pre post Hitems Hno. rewrite E, Hitems, find_last_app.
    cbn [find_last]. rewrite (find_last_none k post Hno).
    now rewrite String.eqb_refl.
Qed.

Lemma task_resources_default_lookup_witness :
  task_resources_default (Some "cpus=1 mem=64 cpus=4")
  = Ok [("cpus", "4"); ("mem", "64")] /\
  dict_get "cpus" [("cpus", "4"); ("mem", "64")] = Some "4".
Proof.
  split; [reflexivity |].
  refine (proj2 (task_resources_default_lookup
                   (Some "cpus=1 mem=64 cpus=4")
                   [("cpus", "4"); ("mem", "64")] "cpus" "4" eq_refl)
                [["cpus"; "1"]; ["mem"; "64"]] [] eq_refl _).
  intros v' [].
Defined.

(** A word given to [--task_resources] on the command line is cut at its
    [=] signs and nothing is checked: it gets one member more than it has
    [=] signs, no member holds a [=], joined by [=] the members give the
    word back, and a word without [=] is passed on as a list of one. *)
Theorem task_resources_type_members (x : string) :
  List.length (task_resources_type x) = S (count_char "="%char x) /\
  Forall (fun p => count_char "="%char p = 0%nat) (task_resources_type x) /\
  join "="%char (task_resources_type x) = x /\
  (count_char "="%char x = 0%nat -> task_resources_type x = [x]).
Proof.
  unfold task_resources_type.
  split; [apply split_length |].
  split; [apply split_pieces_clean |].
  split; [apply split_join |].
  intros H0.
  pose proof (split_length "="%char x) as Hlen.
  pose proof (split_join "="%char x) as Hjoin.
  rewrite H0 in Hlen.
  destruct (split "="%char x) as [| p [| q qs]]; try discriminate.
  simpl in Hjoin. now subst.
Qed.

End ArgDefaultsFacts.

(** ** More on the Demand Cell *)

Module DemandCellMore.
Import DemandCell DemandCellFacts.

Lemma max_abs_nonneg (ns : list Z) : 0 <= max_abs ns.
Proof.
  induction ns as [| n ns IH]; simpl; [lia |].
  pose proof (Z.abs_nonneg n); lia.
Qed.

Lemma max_abs_perm (ns ns' : list Z) :
  Permutation ns ns' -> max_abs ns = max_abs ns'.
Proof.
  induction 1 as [| n l l' _ IH | n m l | l l' l'' _ IH1 _ IH2]; simpl;
    try lia.
Qed.

(** Asking twice changes nothing: a repeated request is absorbed, whatever
    the stored value and the request are. *)
Theorem merge_idempotent (c n : Z) : merge (merge c n) n = merge c n.
Proof.
  unfold merge at 2 3.
  destruct (Z.ltb_spec (Z.abs c) (Z.abs n)) as [Hlt | Hge].
  - unfold merge. destruct (Z.abs (wrap64 n) <? Z.abs n); reflexivity.
  - now apply merge_keeps.
Qed.

(** The cell stays a 64-bit value through any run of requests, in range or
    not. *)
Theorem merge_all_in_int64 (ns : list Z) :
  forall c, in_int64 c -> in_int64 (merge_all c ns).
Proof.
  unfold merge_all.
  induction ns as [| n ns IH]; intros c Hc; simpl; [exact Hc |].
  apply IH. now apply merge_in_int64.
Qed.

Lemma merge_all_in_int64_witness : in_int64 (merge_all 0 [2 ^ 70; -5]).
Proof.
  apply (merge_all_in_int64 [2 ^ 70; -5] 0).
  unfold in_int64, int64_min, int64_max; lia.
Defined.

(** A request that is a non-zero multiple of [2^64] wipes the cell: it
    passes the test of line 27 against every stored value and is stored as
    0, so the demand that was outstanding is lost. *)
Theorem merge_multiple_of_2_64_clears (c k : Z) :
  in_int64 c -> k <> 0 -> merge c (k * 2 ^ 64) = 0.
Proof.
  unfold in_int64, int64_min, int64_max; intros Hc Hk.
  rewrite merge_grows.
  - unfold wrap64.
    replace (k * 2 ^ 64 + 2 ^ 63) with (2 ^ 63 + k * 2 ^ 64) by lia.
    rewrite Z.mod_add by lia. rewrite Z.mod_small; lia.
  - rewrite Z.abs_mul. rewrite (Z.abs_eq (2 ^ 64)) by lia. nia.
Qed.

Lemma merge_multiple_of_2_64_witness : merge (-7) (3 * 2 ^ 64) = 0.
Proof.
  apply (merge_multiple_of_2_64_clears (-7) 3);
    [unfold in_int64, int64_min, int64_max; lia | lia].
Defined.

Lemma merge_all_earliest (ns : list Z) :
  Forall in_int64 ns ->
  forall c,
    (merge_all c ns = c /\ Forall (fun m => Z.abs m <= Z.abs c) ns)
    \/ (exists pre post,
           ns = pre ++ merge_all c ns :: post /\
           Z.abs c < Z.abs (merge_all c ns) /\
           Forall (fun m => Z.abs m < Z.abs (merge_all c ns)) pre /\
           Forall (fun m => Z.abs m <= Z.abs (merge_all c ns)) post).
Proof.
  unfold merge_all.
  induction 1 as [| n ns Hn _ IH]; intros c; cbn [fold_left].
  - left. split; [reflexivity | constructor].
  - destruct (Z.ltb_spec (Z.abs c) (Z.abs n)) as [Hlt | Hge].
    + rewrite merge_grows, wrap64_id by assumption.
      destruct (IH n) as [[E Hall] | (pre & post & E & Hgt & Hpre & Hpost)].
      * right. exists [], ns. rewrite E. repeat split; try assumption.
        constructor.
      * right. exists (n :: pre), post. repeat split; try assumption.
        -- cbn [app]. now rewrite <- E.
        -- lia.
        -- constructor; assumption.
    + rewrite merge_keeps by assumption.
      destruct (IH c) as [[E Hall] | (pre & post & E & Hgt & Hpre & Hpost)].
      * left. split; [exact E | constructor; assumption].
      * right. exists (n :: pre), post. repeat split; try assumption.
        -- cbn [app]. now rewrite <- E.
        -- constructor; [lia | assumption].
Qed.

(** The tie-break of the code: of the requests made since the cell was
    emptied, the earliest one of the greatest magnitude is the one the cell
    holds; everything before it is strictly smaller, nothing after it is
    larger. *)
Theorem merge_all_earliest_largest (ns : list Z) :
  Forall in_int64 ns ->
  ns <> [] ->
  exists pre post,
    ns = pre ++ merge_all 0 ns :: post /\
    Forall (fun m => Z.abs m < Z.abs (merge_all 0 ns)) pre /\
    Forall (fun m => Z.abs m <= Z.abs (merge_all 0 ns)) post.
Proof.
  intros Hns Hne.
  destruct (merge_all_earliest ns Hns 0)
    as [[E Hall] | (pre & post & E & _ & Hpre & Hpost)].
  - destruct ns as [| n ns']; [congruence |].
    exists [], ns'. rewrite E.
    inversion Hall as [| ? ? Hn0 Hrest]; subst.
    assert (n = 0) by (simpl in Hn0; lia). subst n.
    repeat split; [constructor | exact Hrest].
  - exists pre, post. repeat split; assumption.
Qed.

Lemma merge_all_earliest_largest_witness :
  exists pre post,
    [2; -7; 7; 3] = pre ++ merge_all 0 [2; -7; 7; 3] :: post /\
    Forall (fun m => Z.abs m < Z.abs (merge_all 0 [2; -7; 7; 3])) pre /\
    Forall (fun m => Z.abs m <= Z.abs (merge_all 0 [2; -7; 7; 3])) post.
Proof.
  apply (merge_all_earliest_largest [2; -7; 7; 3]).
  - repeat constructor; unfold int64_min, int64_max; simpl; lia.
  - discriminate.
Defined.

(** The order of the requests decides the direction, never the size: two
    runs of the same requests in different orders leave values of the same
    magnitude, and a request and its opposite leave whichever came first. *)
Theorem merge_all_order (ns ns' : list Z) (n : Z) :
  Forall in_int64 ns ->
  Permutation ns ns' ->
  in_int64 n -> in_int64 (- n) ->
  Z.abs (merge_all 0 ns) = Z.abs (merge_all 0 ns') /\
  merge_all 0 [n; - n] = n /\
  merge_all 0 [- n; n] = - n.
Proof.
  intros Hns Hperm Hn Hn'.
  assert (Hns' : Forall in_int64 ns').
  { rewrite Forall_forall in *. intros x Hx. apply Hns.
    apply Permutation_sym in Hperm. now apply (Permutation_in x Hperm). }
  split; [| split].
  - rewrite !merge_all_abs by assumption.
    now rewrite (max_abs_perm ns ns' Hperm).
  - unfold merge_all; cbn [fold_left].
    destruct (Z.eq_dec n 0) as [-> | Hne]; [reflexivity |].
    rewrite (merge_grows 0 n) by (simpl; lia).
    rewrite wrap64_id by assumption. apply merge_keeps. lia.
  - unfold merge_all; cbn [fold_left].
    destruct (Z.eq_dec n 0) as [-> | Hne]; [reflexivity |].
    rewrite (merge_grows 0 (- n)) by (simpl; lia).
    rewrite wrap64_id by assumption. apply merge_keeps. lia.
Qed.

Lemma merge_all_order_witness :
  Z.abs (merge_all 0 [4; -9; 1]) = Z.abs (merge_all 0 [1; 4; -9]) /\
  merge_all 0 [6; - 6] = 6 /\
  merge_all 0 [- 6; 6] = - 6.
Proof.
  apply (merge_all_order [4; -9; 1] [1; 4; -9] 6).
  - repeat constructor; unfold int64_min, int64_max; simpl; lia.
  - apply Permutation_sym. change [4; -9; 1] with ([4; -9] ++ [1]).
    apply (Permutation_cons_app [4; -9] []). rewrite app_nil_r.
    apply Permutation_refl.
  - unfold in_int64, int64_min, int64_max; lia.
  - unfold in_int64, int64_min, int64_max; lia.
Defined.

End DemandCellMore.

(** ** More on the Supervisor's runs *)

Module SupervisorMore.
Import Process Callbacks SchedulerProcess Supervisor SupervisorFacts.
Local Open Scope string_scope.
Local Open Scope list_scope.

Definition is_terminate (c : Child) (e : Event) : bool :=
  match e, c with
  | Terminate Mesos _, Mesos | Terminate Relay _, Relay => true
  | _, _ => false
  end.

(** How many times [c.terminate()] was called in a trace. *)
Definition terminate_calls (c : Child) (tr : list Event) : nat :=
  List.length (filter (is_terminate c) tr).

Definition is_recv (e : Event) : bool :=
  match e with Recv => true | _ => false end.

(** How many times [exception_receiver.recv()] was called in a trace. *)
Definition recv_calls (tr : list Event) : nat :=
  List.length (filter is_recv tr).

(** What lines 50-103 emit before the loop. *)
Definition startup : list Event :=
  [Log INFO "Starting Relay Mesos!"; Start Mesos; Start Relay;
   Handler SIGTERM; Handler SIGINT].

(** What the loop emits on the turn that ends it (lines 105-120). *)
Definition trigger_events (o : Obs) : list Event :=
  if poll o then
    [Recv;
     Log ERROR
       "Terminating child processes because one of them raised an exception"]
  else if negb (relay_alive o) then
    [Log ERROR "Relay died.  Check logs to see why."]
  else
    [Log ERROR
       "Mesos Scheduler died and didn't notify me of its exception.  This may be a code bug.  Check logs."].

(** The three ways a run of the loop can go. *)
Inductive MonitorCase (raises : Child -> bool) (inputs : list Input)
  : Prop :=
| StillQuiet :
    forallb is_quiet inputs = true ->
    monitor raises inputs = ([], Looping) ->
    MonitorCase raises inputs
| Triggered (pre post : list Input) (o : Obs) :
    inputs = pre ++ Tick o :: post ->
    forallb is_quiet pre = true ->
    is_trigger o = true ->
    monitor raises inputs = emit (trigger_events o) (shutdown raises) ->
    MonitorCase raises inputs
| Signalled (pre post : list Input) (s : Signal) :
    inputs = pre ++ Sig s :: post ->
    forallb is_quiet pre = true ->
    monitor raises inputs = kill_children raises s ->
    MonitorCase raises inputs.

Lemma monitor_cases raises (inputs : list Input) : MonitorCase raises inputs.
Proof.
  induction inputs as [| i rest IH].
  - now apply StillQuiet.
  - destruct (is_quiet i) eqn:Hq.
    + assert (Hstep : forall more,
                 monitor raises (i :: more) = monitor raises more).
      { intros more. apply (monitor_quiet raises [i] more).
        simpl. now rewrite Hq. }
      destruct IH as [Hall Hm | pre post o E Hpre Ht Hm | pre post s E Hpre Hm].
      * apply StillQuiet; [simpl; now rewrite Hq | now rewrite Hstep].
      * apply (Triggered _ _ (i :: pre) post o);
          [now rewrite E | simpl; now rewrite Hq | exact Ht
          | now rewrite Hstep].
      * apply (Signalled _ _ (i :: pre) post s);
          [now rewrite E | simpl; now rewrite Hq | now rewrite Hstep].
    + destruct i as [o | s].
      * apply (Triggered _ _ [] rest o); try reflexivity.
        -- unfold is_trigger. simpl in Hq.
           destruct (poll o), (relay_alive o), (mesos_alive o);
             simpl in *; congruence.
        -- unfold trigger_events. cbn [monitor]. simpl in Hq.
           destruct (poll o), (relay_alive o), (mesos_alive o);
             simpl in *; congruence.
      * now apply (Signalled _ _ [] rest s).
Qed.

Lemma shutdown_outcome raises :
  snd (shutdown raises) = Exited 1 \/ exists e, snd (shutdown raises) = Raised e.
Proof.
  unfold shutdown; case_raises raises; simpl; eauto.
Qed.

Lemma terminate_calls_app (c : Child) (tr1 tr2 : list Event) :
  terminate_calls c (tr1 ++ tr2)
  = (terminate_calls c tr1 + terminate_calls c tr2)%nat.
Proof. unfold terminate_calls. now rewrite filter_app, length_app. Qed.

Lemma trigger_events_no_terminate (c : Child) (o : Obs) :
  terminate_calls c (trigger_events o) = 0%nat.
Proof.
  unfold trigger_events.
  destruct (poll o), (relay_alive o); now destruct c.
Qed.

Lemma kill_children_calls raises (s : Signal) (c : Child) :
  terminate_calls c (fst (kill_children raises s)) = 1%nat.
Proof.
  unfold kill_children, try_terminate; case_raises raises; now destruct c.
Qed.

Lemma monitor_trigger_events raises (o : Obs) (post : list Input) :
  is_trigger o = true ->
  monitor raises (Tick o :: post) = emit (trigger_events o) (shutdown raises).
Proof.
  unfold is_trigger, trigger_events. cbn [monitor].
  destruct (poll o), (relay_alive o), (mesos_alive o);
    simpl; congruence.
Qed.

Lemma trigger_not_quiet (o : Obs) :
  is_trigger o = true -> is_quiet (Tick o) = false.
Proof.
  unfold is_trigger, is_quiet.
  destruct (poll o), (relay_alive o), (mesos_alive o); simpl; congruence.
Qed.

Lemma shutdown_calls raises (c : Child) :
  (terminate_calls c (fst (shutdown raises)) <= 1)%nat /\
  (snd (shutdown raises) = Exited 1 ->
   terminate_calls c (fst (shutdown raises)) = 1%nat).
Proof.
  unfold shutdown; case_raises raises; destruct c; simpl;
    split; try discriminate; try reflexivity; unfold terminate_calls; simpl; lia.
Qed.

Lemma kill_children_recv raises (s : Signal) :
  recv_calls (fst (kill_children raises s)) = 0%nat.
Proof. unfold kill_children, try_terminate; case_raises raises; reflexivity. Qed.

Lemma shutdown_recv raises : recv_calls (fst (shutdown raises)) = 0%nat.
Proof. unfold shutdown; case_raises raises; reflexivity. Qed.

(** Whatever the namespace, the children and the turns of the loop, [main]
    never returns and never exits with a status other than 1: a run ends
    with [sys.exit(1)] or an uncaught exception, or it is still looping. *)
Theorem main_ends_in_failure ns raises (inputs : list Input) :
  snd (main ns raises inputs) <> Returned /\
  (forall status, snd (main ns raises inputs) = Exited status -> status = 1).
Proof.
  unfold main. destruct (mesos_master ns) as [m |].
  - unfold emit; cbn [snd].
    destruct (monitor_cases raises inputs)
      as [_ Hm | pre post o _ _ _ Hm | pre post s _ _ Hm]; rewrite Hm.
    + split; [discriminate | intros st H; discriminate].
    + unfold emit; cbn [snd].
      destruct (shutdown_outcome raises) as [-> | [e ->]];
        split; try discriminate; intros st H; now inversion H.
    + split; [discriminate | intros st H; now inversion H].
  - split; [discriminate | intros st H; now inversion H].
Qed.

(** With a master given, the Supervisor keeps looping exactly as long as
    every turn is quiet, and until then it has done nothing beyond starting
    the children and installing the handlers: it terminates nothing and
    receives nothing while all is well. *)
Theorem main_loops_iff_quiet ns (m : string) raises (inputs : list Input) :
  mesos_master ns = Some m ->
  (snd (main ns raises inputs) = Looping
   <-> forallb is_quiet inputs = true) /\
  (forallb is_quiet inputs = true ->
   fst (main ns raises inputs) = startup).
Proof.
  intros Hm. unfold main. rewrite Hm. unfold emit; cbn [fst snd].
  destruct (monitor_cases raises inputs)
    as [Hq Hmon | pre post o E Hpre Ht Hmon | pre post s E Hpre Hmon];
    rewrite Hmon.
  - split; [tauto | intros _; apply app_nil_r].
  - assert (Hnq : forallb is_quiet inputs = false).
    { rewrite E, forallb_app. cbn [forallb].
      rewrite (trigger_not_quiet o Ht). now rewrite andb_false_r. }
    rewrite Hnq. unfold emit; cbn [snd].
    split; [| discriminate]. split; [| discriminate].
    destruct (shutdown_outcome raises) as [-> | [e ->]]; discriminate.
  - assert (Hnq : forallb is_quiet inputs = false).
    { rewrite E, forallb_app. cbn [forallb is_quiet].
      now rewrite andb_false_r. }
    rewrite Hnq. split; [| discriminate]. split; discriminate.
Qed.

Lemma main_loops_iff_quiet_witness :
  snd (main (mkNamespace (Some "master:5050") Unset Unset (-1))
            never_raises [Tick (mkObs false true true)]) = Looping.
Proof.
  apply (proj1 (main_loops_iff_quiet
                  (mkNamespace (Some "master:5050") Unset Unset (-1))
                  "master:5050" never_raises
                  [Tick (mkObs false true true)] eq_refl)).
  reflexivity.
Defined.

(** After the loop nothing guards the [terminate] calls: if
    [relay.terminate()] raises, the run ends with that exception and
    [mesos.terminate()] is never called, whereas a signal at the same point
    has [kill_children] call [terminate] on both children. *)
Theorem main_shutdown_unguarded
  ns (m : string) raises (pre post : list Input) (o : Obs) (s : Signal) :
  mesos_master ns = Some m ->
  forallb is_quiet pre = true ->
  is_trigger o = true ->
  raises Relay = true ->
  let r := main ns raises (pre ++ Tick o :: post) in
  (exists e, snd r = Raised e) /\
  terminate_calls Relay (fst r) = 1%nat /\
  terminate_calls Mesos (fst r) = 0%nat /\
  terminate_calls Mesos (fst (main ns raises (pre ++ Sig s :: post))) = 1%nat.
Proof.
  intros Hm Hpre Ht Hr. cbv zeta. unfold main. rewrite Hm.
  rewrite !monitor_quiet by exact Hpre.
  rewrite monitor_trigger_events by exact Ht.
  rewrite (shutdown_unguarded raises Hr).
  unfold emit; cbn [fst snd monitor].
  split; [eexists; reflexivity |].
  rewrite !terminate_calls_app, !trigger_events_no_terminate,
    kill_children_calls.
  repeat split.
Qed.

Lemma main_shutdown_unguarded_witness :
  let raises := fun c => match c with Relay => true | Mesos => false end in
  let ns := mkNamespace (Some "master:5050") Unset Unset (-1) in
  terminate_calls Mesos
    (fst (main ns raises ([] ++ Tick (mkObs false true false) :: [])))
  = 0%nat.
Proof.
  exact (proj1 (proj2 (proj2
    (main_shutdown_unguarded
       (mkNamespace (Some "master:5050") Unset Unset (-1)) "master:5050"
       (fun c => match c with Relay => true | Mesos => false end)
       [] [] (mkObs false true false) SIGTERM
       eq_refl eq_refl eq_refl eq_refl)))).
Defined.

(** With a master given, [main] does not reach a [sys.exit(1)] before it
    has called [terminate] on the scheduler and on relay, be it after the
    loop or in the signal handler, and whether or not the calls raise; as
    long as it is looping it has called [terminate] on neither. *)
Theorem main_exit_terminates_both
  ns (m : string) raises (inputs : list Input) :
  mesos_master ns = Some m ->
  let r := main ns raises inputs in
  (snd r = Exited 1 ->
   (1 <= terminate_calls Relay (fst r))%nat /\
   (1 <= terminate_calls Mesos (fst r))%nat) /\
  (snd r = Looping ->
   terminate_calls Relay (fst r) = 0%nat /\
   terminate_calls Mesos (fst r) = 0%nat).
Proof.
  intros Hm. cbv zeta. unfold main. rewrite Hm. unfold emit; cbn [fst snd].
  rewrite !terminate_calls_app.
  change (terminate_calls Relay
            [Log INFO "Starting Relay Mesos!"; Start Mesos; Start Relay;
             Handler SIGTERM; Handler SIGINT]) with 0%nat.
  change (terminate_calls Mesos
            [Log INFO "Starting Relay Mesos!"; Start Mesos; Start Relay;
             Handler SIGTERM; Handler SIGINT]) with 0%nat.
  cbn [Nat.add].
  destruct (monitor_cases raises inputs)
    as [_ Hmon | pre post o _ _ _ Hmon | pre post s _ _ Hmon]; rewrite Hmon.
  - split; [discriminate | intros _; split; reflexivity].
  - unfold emit; cbn [fst snd].
    rewrite !terminate_calls_app, !trigger_events_no_terminate.
    cbn [Nat.add]. split.
    + intros He.
      destruct (shutdown_calls raises Relay) as [_ Hr].
      destruct (shutdown_calls raises Mesos) as [_ Hs].
      rewrite (Hr He), (Hs He). split; lia.
    + destruct (shutdown_outcome raises) as [-> | [e ->]]; discriminate.
  - rewrite !kill_children_calls. split; [intros _; split; lia | discriminate].
Qed.

Lemma main_exit_terminates_both_witness :
  (1 <= terminate_calls Mesos
          (fst (main (mkNamespace (Some "master:5050") Unset Unset (-1))
                     (fun _ => true) [Sig SIGTERM])))%nat.
Proof.
  apply (proj1 (main_exit_terminates_both
                  (mkNamespace (Some "master:5050") Unset Unset (-1))
                  "master:5050" (fun _ => true) [Sig SIGTERM] eq_refl)).
  reflexivity.
Defined.

(** [exception_receiver.recv()] is called at most once in a run, and only
    on a turn on which [poll()] has answered that something is there to
    receive, the first turn that is not quiet: the Supervisor never blocks
    in [recv]. *)
Theorem main_recv_only_after_poll ns raises (inputs : list Input) :
  (recv_calls (fst (main ns raises inputs)) <= 1)%nat /\
  (recv_calls (fst (main ns raises inputs)) = 1%nat ->
   exists pre o post,
     inputs = pre ++ Tick o :: post /\
     forallb is_quiet pre = true /\ poll o = true).
Proof.
  unfold main. destruct (mesos_master ns) as [m |].
  - unfold emit; cbn [fst].
    assert (Happ : forall tr1 tr2,
               recv_calls (tr1 ++ tr2) = (recv_calls tr1 + recv_calls tr2)%nat).
    { intros. unfold recv_calls. now rewrite filter_app, length_app. }
    rewrite Happ.
    change (recv_calls [Log INFO "Starting Relay Mesos!"; Start Mesos;
                        Start Relay; Handler SIGTERM; Handler SIGINT])
      with 0%nat.
    cbn [Nat.add].
    destruct (monitor_cases raises inputs)
      as [_ Hmon | pre post o E Hpre Ht Hmon | pre post s _ _ Hmon];
      rewrite Hmon.
    + split; [simpl; unfold recv_calls; simpl; lia | discriminate].
    + unfold emit; cbn [fst]. rewrite Happ, shutdown_recv, Nat.add_0_r.
      unfold trigger_events.
      destruct (poll o) eqn:Hp.
      * split; [unfold recv_calls; simpl; lia |].
        intros _. now exists pre, o, post.
      * destruct (negb (relay_alive o)); split;
          (unfold recv_calls; simpl; lia) || discriminate.
    + rewrite kill_children_recv. split; [lia | discriminate].
  - split; [unfold recv_calls; simpl; lia | discriminate].
Qed.

End SupervisorMore.

(** ** More on the scheduler process and the callbacks *)

Module WorkersMore.
Import DemandCell Process Callbacks SchedulerProcess.
Local Open Scope string_scope.
Local Open Scope list_scope.

(** A run of callback calls by Relay's loop, oldest first, with what they
    emit. *)
Fixpoint call_all (ns : list Z) (st : RelayState) : RelayState * list Event :=
  match ns with
  | [] => (st, [])
  | n :: rest =>
      let r := _warmer_cooler_wrapper n st in
      let r' := call_all rest (fst r) in
      (fst r', snd r ++ snd r')
  end.

(** Whatever the requests, a run of callback calls leaves in the cell what
    the run of merges leaves, keeps the namespace, runs no command and
    emits two log records per call. *)
Theorem call_all_merges (ns : list Z) :
  forall st,
    MV (fst (call_all ns st)) = merge_all (MV st) ns /\
    ns_relay (fst (call_all ns st)) = ns_relay st /\
    existsb is_exec (snd (call_all ns st)) = false /\
    List.length (snd (call_all ns st)) = (2 * List.length ns)%nat.
Proof.
  unfold merge_all.
  induction ns as [| n rest IH]; intros st; cbn [call_all fold_left].
  - repeat split.
  - destruct (IH (fst (_warmer_cooler_wrapper n st)))
      as (Hmv & Hns & Hex & Hlen).
    cbn [fst snd] in *. repeat split.
    + exact Hmv.
    + exact Hns.
    + rewrite existsb_app, Hex. reflexivity.
    + rewrite length_app, Hlen. simpl. lia.
Qed.

(** [main] puts the wrapper behind a slot exactly when the slot was given a
    non-empty command (or holds the wrapper already); an absent or empty
    warmer or cooler is handed to Relay as it is.  Doing the override twice
    is doing it once, and the master and the failure threshold are
    copied. *)
Theorem override_wraps_iff_given (ns : Namespace) :
  (callback (warmer (override ns)) = Some _warmer_cooler_wrapper
   <-> truthy (warmer ns) = true) /\
  (callback (cooler (override ns)) = Some _warmer_cooler_wrapper
   <-> truthy (cooler ns) = true) /\
  (truthy (warmer ns) = false -> warmer (override ns) = warmer ns) /\
  (truthy (cooler ns) = false -> cooler (override ns) = cooler ns) /\
  override (override ns) = override ns /\
  mesos_master (override ns) = mesos_master ns /\
  max_failures (override ns) = max_failures ns.
Proof.
  destruct ns as [mm w c mf].
  destruct w as [| cw |], c as [| cc |]; unfold override; simpl;
    try destruct (String.eqb cw EmptyString) eqn:Ew;
    try destruct (String.eqb cc EmptyString) eqn:Ec;
    simpl; rewrite ?Ew, ?Ec; simpl;
    repeat split; intros; try reflexivity; try discriminate.
Qed.

(** [init_mesos_scheduler] exits with status 0 in one case only: both
    bindings can be imported and [driver.run()] has returned
    [DRIVER_STOPPED]. *)
Theorem init_mesos_scheduler_exit_0_iff (h : Host) :
  snd (init_mesos_scheduler h) = Exited 0
  <-> interface_installed h = true /\ native_installed h = true
      /\ driver_run h = Some DRIVER_STOPPED.
Proof.
  destruct h as [i n d]; unfold init_mesos_scheduler; simpl.
  destruct i, n; simpl; try (split; [discriminate | intros (? & ? & ?); discriminate]).
  destruct d as [[] |]; simpl; split; try discriminate;
    try (intros (_ & _ & H); discriminate); intros; repeat split.
Qed.

Definition is_driver_run (e : Event) : bool :=
  match e with DriverRun => true | _ => false end.

(** The driver is run exactly when both bindings can be imported, and then
    only after [driver.stop] has been registered with [atexit]; the function
    never returns: it exits, and then it has called [driver.stop()] as its
    last act, or it raises [ImportError], or it is still inside
    [driver.run()]. *)
Theorem init_mesos_scheduler_driver (h : Host) :
  let r := init_mesos_scheduler h in
  (existsb is_driver_run (fst r) = true
   <-> interface_installed h = true /\ native_installed h = true) /\
  (existsb is_driver_run (fst r) = true ->
   exists log, fst r = log :: AtexitRegister :: DriverRun
                         :: match snd r with
                            | Exited _ => [DriverStop]
                            | _ => []
                            end) /\
  snd r <> Returned /\
  (forall e, snd r = Raised e -> e = "ImportError") /\
  (snd r = Looping <-> interface_installed h = true
                       /\ native_installed h = true /\ driver_run h = None).
Proof.
  destruct h as [i n d]; unfold init_mesos_scheduler.
  destruct i, n, d as [res |]; cbn -[String.eqb];
    repeat split; intros;
    try discriminate; try reflexivity;
    try (eexists; reflexivity);
    try match goal with
        | H : Raised _ = Raised _ |- _ => now inversion H
        | H : _ /\ _ |- _ => decompose [and] H; discriminate
        end.
Qed.

End WorkersMore.

(** ** More on the Readiness Gate *)

Module ReadinessGateMore.
Import DemandCell ReadinessGate ReadinessGateFacts.

(** The Control-Loop Process holds the lock of [mesos_ready] exactly
    between [acquire()] and [wait()], and from the return of [wait()] on. *)
Definition lock_inv (s : State) : Prop :=
  lock s = ByRelay <-> (pc s = AtWait \/ pc s = InLoop).

(** The steps that are still possible once [relay_main] runs. *)
Definition is_cell_action (a : Action) : bool :=
  match a with
  | Callback _ | SchedTake => true
  | _ => false
  end.

Lemma exec_app (pre post : list Action) :
  forall s,
    exec s (pre ++ post)
    = match exec s pre with
      | Some s1 => exec s1 post
      | None => None
      end.
Proof.
  induction pre as [| a pre IH]; intros s; cbn [app exec]; [reflexivity |].
  destruct (step s a); [apply IH | reflexivity].
Qed.

Lemma lock_inv_step (s s' : State) (a : Action) :
  lock_inv s -> step s a = Some s' -> lock_inv s'.
Proof.
  unfold lock_inv. destruct s as [p l v]; simpl. intros Hinv Hs.
  destruct a, p, l; simpl in Hs; try discriminate;
    inversion Hs; subst; simpl;
    split; intros H; try discriminate; try tauto;
    try (destruct H; discriminate);
    exfalso; destruct Hinv as [H1 H2];
    try (specialize (H2 H); discriminate);
    try (specialize (H2 (or_introl eq_refl)); discriminate);
    try (specialize (H2 (or_intror eq_refl)); discriminate).
Qed.

Lemma lock_inv_exec (acts : list Action) :
  forall s s', lock_inv s -> exec s acts = Some s' -> lock_inv s'.
Proof.
  induction acts as [| a acts IH]; intros s s' Hinv Hex; cbn [exec] in Hex.
  - now inversion Hex; subst.
  - destruct (step s a) as [s1 |] eqn:Hs; [| discriminate].
    apply (IH s1 s'); [now apply (lock_inv_step s s1 a) | exact Hex].
Qed.

Lemma in_loop_step (s s' : State) (a : Action) :
  pc s = InLoop -> lock s = ByRelay -> step s a = Some s' ->
  pc s' = InLoop /\ lock s' = ByRelay /\ is_cell_action a = true.
Proof.
  destruct s as [p l v]; simpl. intros -> -> Hs.
  destruct a; simpl in Hs; try discriminate; inversion Hs; subst; simpl;
    repeat split.
Qed.

(** [init_relay] never gives the lock of [mesos_ready] back: in every run,
    once [relay_main] has started the Control-Loop Process holds the lock
    for good.  From then on the only steps left are callbacks and reads of
    the cell: the Scheduler Engine can never again acquire, notify or
    release the condition. *)
Theorem relay_keeps_the_gate_locked
  (acts more : list Action) (s s' : State) :
  exec init acts = Some s ->
  pc s = InLoop ->
  exec s more = Some s' ->
  lock s = ByRelay /\
  pc s' = InLoop /\ lock s' = ByRelay /\
  forallb is_cell_action more = true.
Proof.
  intros Hreach Hpc Hmore.
  assert (Hinv : lock_inv s).
  { apply (lock_inv_exec acts init s); [| exact Hreach].
    unfold lock_inv; simpl. split; [discriminate | intros [H | H]; discriminate]. }
  assert (Hl : lock s = ByRelay) by (apply Hinv; now right).
  split; [exact Hl |].
  clear Hreach Hinv. revert s Hpc Hl Hmore.
  induction more as [| a more IH]; intros s Hpc Hl Hmore; cbn [exec] in Hmore.
  - inversion Hmore; subst. repeat split; assumption.
  - destruct (step s a) as [s1 |] eqn:Hs; [| discriminate].
    destruct (in_loop_step s s1 a Hpc Hl Hs) as (Hpc1 & Hl1 & Ha).
    destruct (IH s1 Hpc1 Hl1 Hmore) as (H1 & H2 & H3).
    repeat split; try assumption. cbn [forallb]. now rewrite Ha, H3.
Qed.

Lemma relay_keeps_the_gate_locked_witness :
  forallb is_cell_action [Callback 3; SchedTake; Callback (-2)] = true.
Proof.
  exact (proj2 (proj2 (proj2
    (relay_keeps_the_gate_locked
       [RelayAcquire; RelayWait; SchedAcquire; SchedNotify; SchedRelease;
        RelayWake]
       [Callback 3; SchedTake; Callback (-2)]
       (mkState InLoop ByRelay 0) (mkState InLoop ByRelay (-2))
       eq_refl eq_refl eq_refl)))).
Defined.

Lemma asleep_exec (acts : list Action) :
  forall s s',
    pc s = Asleep -> ~ In SchedNotify acts -> exec s acts = Some s' ->
    pc s' = Asleep.
Proof.
  induction acts as [| a acts IH]; intros s s' Hpc Hno Hex; cbn [exec] in Hex.
  - now inversion Hex; subst.
  - destruct (step s a) as [s1 |] eqn:Hs; [| discriminate].
    apply (IH s1 s'); [| | exact Hex].
    + apply (asleep_until_notified s s1 a Hpc Hs).
      intros ->. apply Hno. now left.
    + intros Hin. apply Hno. now right.
Qed.

(** The wait is not guarded by a flag, so a release can be missed: if no
    notify comes after the Control-Loop Process has entered [wait()], then,
    however often the gate was notified before, the process stays asleep and
    none of its steps is possible, neither the return from [wait()] nor a
    callback. *)
Theorem notify_before_wait_is_lost
  (before after : list Action) (s : State) :
  exec init (before ++ RelayWait :: after) = Some s ->
  ~ In SchedNotify after ->
  pc s = Asleep /\
  (forall a, is_relay_action a = true -> step s a = None).
Proof.
  intros Hex Hno. rewrite exec_app in Hex.
  destruct (exec init before) as [s0 |]; [| discriminate].
  cbn [exec] in Hex.
  destruct (step s0 RelayWait) as [s1 |] eqn:Hs; [| discriminate].
  assert (Hpc1 : pc s1 = Asleep).
  { destruct s0 as [p l v]. destruct p, l; simpl in Hs; try discriminate.
    now inversion Hs. }
  assert (Hpc : pc s = Asleep) by exact (asleep_exec after s1 s Hpc1 Hno Hex).
  split; [exact Hpc |].
  intros a Ha. now apply asleep_blocks.
Qed.

Lemma notify_before_wait_is_lost_witness :
  pc (mkState Asleep Nobody 0) = Asleep /\
  step (mkState Asleep Nobody 0) RelayWake = None.
Proof.
  destruct (notify_before_wait_is_lost
              [SchedAcquire; SchedNotify; SchedRelease; RelayAcquire]
              [SchedAcquire; SchedRelease; SchedTake]
              (mkState Asleep Nobody 0) eq_refl) as [Hpc Hblocked].
  - simpl. intros [H | [H | [H | []]]]; discriminate.
  - split; [exact Hpc | exact (Hblocked RelayWake eq_refl)].
Defined.

End ReadinessGateMore.

(** ** The processes together: whose exit status is which *)

Module System.
Import Process FailureBudget SchedulerProcess Supervisor.
Local Open Scope string_scope.
Local Open Scope list_scope.

Definition is_send (e : Event) : bool :=
  match e with Send _ => true | _ => false end.

(** [p.is_alive()]: a child process is alive until its target has ended,
    by an exit, an exception or a return. *)
Definition child_alive (r : Run) : bool :=
  match snd r with
  | Looping => true
  | _ => false
  end.

(** Whether the child has put something on the pipe of line 61. *)
Definition fault_sent (r : Run) : bool := existsb is_send (fst r).

(** What a turn of the Supervisor's loop finds, given how far the two
    children have come: [exception_receiver.poll()], [relay.is_alive()],
    [mesos.is_alive()]. *)
Definition observe (mesos relay : Run) : Obs :=
  mkObs (fault_sent mesos || fault_sent relay)
        (child_alive relay) (child_alive mesos).

(** The scheduler child of lines 73-77:
    [target=catch(init_mesos_scheduler, exception_sender)]. *)
Definition scheduler_child (h : Host) : Run :=
  catch (init_mesos_scheduler h).

(** A relay child that is up: waiting at the gate or running its loop. *)
Definition relay_running : Run := ([], Looping).

(** Modelled from the spec: the breaker check is in
    [relay_mesos/scheduler.py], which is not part of the sources at hand.
    The spec: "after every status update, if threshold >= 0 and score >
    threshold: push a fault to the Fault Channel, instruct the cluster
    manager driver to stop, and terminate the process".  What the scheduler
    child emits on a status update. *)
Definition breaker_check (st : TaskState) (b : FailureBudget) : list Event :=
  if snd (on_status st b)
  then [Send "failure threshold exceeded"; DriverStop]
  else [].

End System.

Module SystemClaims.
Import Process Callbacks FailureBudget SchedulerProcess Supervisor.
Import SupervisorFacts SupervisorMore System.
Local Open Scope string_scope.
Local Open Scope list_scope.

Lemma ended_child_is_dead (r : Run) :
  snd r <> Looping -> child_alive (catch r) = false.
Proof.
  destruct r as [tr out]; unfold catch, child_alive; simpl.
  destruct out; simpl; congruence.
Qed.

(** C4, as the claim states it for the program, fails: when [driver.run()]
    returns [DRIVER_STOPPED] the scheduler child exits with status 0, the
    Supervisor's next turn finds no fault and a dead scheduler, and the
    Supervisor exits with status 1, not 0. *)
Lemma C4_clean_stop_counterexample :
  let sched := scheduler_child (mkHost true true (Some DRIVER_STOPPED)) in
  let ns := mkNamespace (Some "zk://localhost:2181/mesos")
                        (Command "./warm.sh") (Command "./cool.sh") (-1) in
  snd sched = Exited 0 /\
  observe sched relay_running = mkObs false true false /\
  snd (main ns never_raises [Tick (observe sched relay_running)]) = Exited 1 /\
  snd (main ns never_raises [Tick (observe sched relay_running)]) <> Exited 0.
Proof.
  cbv zeta. split; [reflexivity |]. split; [reflexivity |].
  split; [reflexivity | discriminate].
Qed.

(** C4, amended: the exit statuses by process.  The Scheduler Engine
    process exits with status 0 when [driver.run()] returns
    [DRIVER_STOPPED] and with 1 on any other driver status.  The
    Supervisor, the program's own process, never exits with 0.  It exits
    with status 1 on a missing [--mesos_master]; on a termination signal;
    and, the [terminate] calls returning, on the first turn that finds a
    fault on the Fault Channel or a dead child.  Every end of the scheduler
    child, its clean exit included, is such a turn; a missing binding puts
    a fault on the channel, and so does, by the spec, a breaker trip.
    Before any of these the Supervisor is still looping. *)
Theorem C4_exit_codes_by_process
  (raises : Child -> bool) (pre post : list Input) (o : Obs) :
  (forall c, raises c = false) ->
  forallb is_quiet pre = true ->
  is_trigger o = true ->
  (forall res,
     snd (scheduler_child (mkHost true true (Some res)))
     = Exited (if is_stopped res then 0 else 1)) /\
  (forall h relay,
     snd (init_mesos_scheduler h) <> Looping ->
     is_trigger (observe (scheduler_child h) relay) = true) /\
  (forall h relay,
     interface_installed h && native_installed h = false ->
     poll (observe (scheduler_child h) relay) = true) /\
  (forall st b out relay,
     snd (on_status st b) = true ->
     poll (observe (breaker_check st b, out) relay) = true) /\
  (forall w c mf any_raises inputs,
     main (mkNamespace None w c mf) any_raises inputs
     = ([Log ERROR "Oops!  You didn't define --mesos_master"; PrintUsage],
        Exited 1)) /\
  (forall ns m, mesos_master ns = Some m ->
     main ns raises (pre ++ Tick o :: post)
     = (startup ++ trigger_events o
          ++ [Terminate Relay true; Terminate Mesos true],
        Exited 1)) /\
  (forall ns m any_raises s, mesos_master ns = Some m ->
     main ns any_raises (pre ++ Sig s :: post)
     = (startup ++ fst (kill_children any_raises s), Exited 1)) /\
  (forall ns m any_raises, mesos_master ns = Some m ->
     main ns any_raises pre = (startup, Looping)) /\
  (forall ns any_raises inputs,
     snd (main ns any_raises inputs) <> Exited 0).
Proof.
  intros Hr Hq Ht.
  split; [intros res; destruct res; reflexivity |].
  split.
  { intros h relay Hend. unfold observe, is_trigger; cbn [poll relay_alive mesos_alive].
    unfold scheduler_child. rewrite (ended_child_is_dead _ Hend).
    cbn [negb]. now rewrite orb_true_r. }
  split.
  { intros [i n d] relay Hmiss; simpl in Hmiss.
    unfold observe; cbn [poll]. apply orb_true_iff; left.
    unfold scheduler_child, init_mesos_scheduler; simpl.
    destruct i, n; simpl in *; try discriminate; reflexivity. }
  split.
  { intros st b out relay Htrip. unfold observe; cbn [poll].
    apply orb_true_iff; left.
    unfold breaker_check. rewrite Htrip. reflexivity. }
  split; [reflexivity |].
  split.
  { intros ns m Hm. unfold main. rewrite Hm.
    rewrite monitor_quiet by exact Hq.
    rewrite monitor_trigger_events by exact Ht.
    rewrite shutdown_ok by exact Hr.
    unfold emit; cbn [fst snd]. reflexivity. }
  split.
  { intros ns m any_raises s Hm. unfold main. rewrite Hm.
    rewrite monitor_quiet by exact Hq. reflexivity. }
  split.
  { intros ns m any_raises Hm. unfold main. rewrite Hm.
    rewrite <- (app_nil_r pre), monitor_quiet by exact Hq.
    unfold emit; cbn [monitor fst snd]. now rewrite !app_nil_r. }
  intros ns any_raises inputs. apply main_never_exits_0.
Qed.

Lemma C4_exit_codes_by_process_witness :
  let sched := scheduler_child (mkHost true false (Some DRIVER_ABORTED)) in
  let ns := mkNamespace (Some "zk://localhost:2181/mesos")
                        (Command "./warm.sh") (Command "./cool.sh") (-1) in
  main ns never_raises
       ([Tick (mkObs false true true)]
          ++ Tick (observe sched relay_running) :: [])
  = (startup ++ trigger_events (observe sched relay_running)
       ++ [Terminate Relay true; Terminate Mesos true],
     Exited 1).
Proof.
  refine (proj1 (proj2 (proj2 (proj2 (proj2 (proj2
    (C4_exit_codes_by_process never_raises
       [Tick (mkObs false true true)] []
       (observe (scheduler_child (mkHost true false (Some DRIVER_ABORTED)))
                relay_running) _ _ _))))))
    (mkNamespace (Some "zk://localhost:2181/mesos")
                 (Command "./warm.sh") (Command "./cool.sh") (-1))
    "zk://localhost:2181/mesos" _);
    reflexivity.
Defined.

End SystemClaims.
